(** * Climate load analysis: route-to-climate resolution and surface physics

    A shallow embedding of [src/utils/dataProcessing.ts] (class
    [DataProcessor]), [src/utils/climateCalculations.ts] (class
    [ClimateCalculations]) and of the two handlers of [src/App.tsx], with
    the properties the specification states about them.

    Numbers.  A JavaScript [number] is modelled as an exact rational [Q]:
    every finite double is a rational, and the arithmetic is taken without
    rounding.  The one place where IEEE arithmetic leaves the finite
    numbers in this code is a division whose divisor is zero; a division by
    anything but a non-zero literal is therefore written [x // y] and
    returns [None] on a zero divisor.  Functions that contain such a
    division return [option].

    Host functions.  [Math.sqrt], [Math.random], the date-fns formatting of
    a timestamp, [parseInt], [Number.prototype.toString] and the network
    ([fetch]) are not part of the program; they are the fields of the
    class [Host] and every result below holds for each instance. *)

From Stdlib Require Import QArith Qminmax Qabs Lqa Lia.
From stdpp Require Import base option list gmap strings pretty.

(* set_solver clears hypotheses that section variables keep alive *)
#[global] Set Warnings "-clear-no-such-hyp".

(** ** Numbers *)

Module Num.
Local Open Scope Q_scope.

(** [x / y] with a divisor that may be zero. *)
Definition div (x y : Q) : option Q :=
  if Qeq_bool y 0 then None else Some (x / y).

(** [x > y] and [x < y] as the booleans JavaScript computes. *)
Definition gtb (x y : Q) : bool :=
  match x ?= y with Gt => true | _ => false end.
Definition ltb (x y : Q) : bool :=
  match x ?= y with Lt => true | _ => false end.

(** [a || d] on an optional number: [undefined] and [0] are falsy. *)
Definition or_default (a : option Q) (d : Q) : Q :=
  match a with
  | Some x => if Qeq_bool x 0 then d else x
  | None => d
  end.

(** [xs.reduce((sum, x) => sum + x, 0)] *)
Definition sum (xs : list Q) : Q := foldl Qplus 0 xs.

End Num.

Notation "x // y" := (Num.div x y) (at level 40, left associativity).

(** ** Data model ([src/types/index.ts]) *)

Module GPSPoint.
Record t := mk { timestamp : string; latitude : Q; longitude : Q }.
End GPSPoint.

Module ClimateData.
Record t := mk {
    date : string;
    latitude : Q;
    longitude : Q;
    temperature : Q;
    maxTemperature : Q;
    solarRadiation : Q;
    humidity : Q;
    uvIndex : Q
  }.
End ClimateData.

Module SurfaceProperties.
Record t := mk { albedo : Q; emissivity : Q; materialType : string }.
End SurfaceProperties.

Inductive Level := Low | Medium | High.

Module RiskAssessment.
Record t := mk { crackingRisk : Level; agingRate : Q; moistureStress : Level }.
End RiskAssessment.

Module AnalysisResult.
Record t := mk {
    date : string;
    latitude : Q;
    longitude : Q;
    surfaceTemperature : Q;
    emcAverage : Q;
    emcPeak : Q;
    cumulativeUV : Q;
    riskAssessment : RiskAssessment.t;
    rawClimateData : ClimateData.t
  }.
End AnalysisResult.

Inductive AggregationLevel := daily | weekly | monthly.

Module AnalysisConfig.
Record t := mk {
    startDate : string;
    endDate : string;
    surfaceProperties : SurfaceProperties.t;
    aggregationLevel : AggregationLevel
  }.
End AnalysisConfig.

(** ** The surface physics engine ([ClimateCalculations]) *)

Module ClimateCalculations.
Local Open Scope Q_scope.

Module EMC.
Record t := mk { average : Q; peak : Q }.
End EMC.

(** Stefan-Boltzmann constant *)
Definition sigma : Q := 5.67e-8.

Definition calculateSurfaceTemperature
      (airTemp solarRadiation : Q) (properties : SurfaceProperties.t) : option Q :=
    let absorgedRadiation := solarRadiation * (1 - SurfaceProperties.albedo properties) in
    radiationEffect ← absorgedRadiation // (SurfaceProperties.emissivity properties * sigma * 20);
    Some (airTemp + radiationEffect * 0.1).

Definition calculateEMC (temperature humidity : Q) : option EMC.t :=
    let rh := Qmin humidity 95 in
    average ← (330 + 0.452 * rh + 0.00415 * rh * rh) //
              (100 + 1.27 * rh + 0.0135 * rh * rh);
    let tempFactor := 1 + (temperature - 20) * 0.02 in
    let peak := average * tempFactor in
    Some {| EMC.average := Qmax 0 average; EMC.peak := Qmax 0 peak |}.

Definition calculateCumulativeUV (uvIndex hours : Q) : Q :=
    uvIndex * hours * 0.1.

Definition defaultHours : Q := 24.

Definition assessRisks (surfaceTemp emcAverage emcPeak cumulativeUV : Q)
      : RiskAssessment.t :=
    let crackingRisk :=
      if Num.gtb surfaceTemp 60 then High
      else if Num.gtb surfaceTemp 40 then Medium
      else Low in
    let emcVariation := Qabs (emcPeak - emcAverage) in
    let moistureStress :=
      if Num.gtb emcVariation 5 then High
      else if Num.gtb emcVariation 3 then Medium
      else Low in
    let agingRate := 1 + (cumulativeUV / 100) + (surfaceTemp - 20) * 0.05 in
    {| RiskAssessment.crackingRisk := crackingRisk;
       RiskAssessment.agingRate := Qmax 1 agingRate;
       RiskAssessment.moistureStress := moistureStress |}.

Definition analyse (surfaceProperties : SurfaceProperties.t) (data : ClimateData.t)
      : option AnalysisResult.t :=
    surfaceTemperature ← calculateSurfaceTemperature
      (ClimateData.temperature data) (ClimateData.solarRadiation data) surfaceProperties;
    emc ← calculateEMC (ClimateData.temperature data) (ClimateData.humidity data);
    let cumulativeUV := calculateCumulativeUV (ClimateData.uvIndex data) defaultHours in
    let riskAssessment :=
      assessRisks surfaceTemperature (EMC.average emc) (EMC.peak emc) cumulativeUV in
    Some {| AnalysisResult.date := ClimateData.date data;
            AnalysisResult.latitude := ClimateData.latitude data;
            AnalysisResult.longitude := ClimateData.longitude data;
            AnalysisResult.surfaceTemperature := surfaceTemperature;
            AnalysisResult.emcAverage := EMC.average emc;
            AnalysisResult.emcPeak := EMC.peak emc;
            AnalysisResult.cumulativeUV := cumulativeUV;
            AnalysisResult.riskAssessment := riskAssessment;
            AnalysisResult.rawClimateData := data |}.

End ClimateCalculations.

(** ** The host: what the program calls and does not define *)

(** The JSON body of a provider answer,
    [properties.parameter.<PARAM>.<yyyyMMdd> -> number].  Only the tables
    the program reads are kept. *)
Module DayData.
Record t := mk {
  T2M : option (gmap string Q);
  T2M_MAX : option (gmap string Q);
  RH2M : option (gmap string Q);
  ALLSKY_SFC_SW_DWN : option (gmap string Q);
  ALLSKY_SFC_UVA : option (gmap string Q);
  ALLSKY_SFC_UVB : option (gmap string Q)
}.
End DayData.

Module Properties.
Record t := mk { parameter : option DayData.t }.
End Properties.

Module Body.
Record t := mk { properties : option Properties.t }.
End Body.

(** The request of [callNASAPowerAPI], as the components of its URL. *)
Module Query.
Record t := mk {
  parameters : string;
  community : string;
  longitude : Q;
  latitude : Q;
  start : string;
  end_ : string
}.
End Query.

(** [fetch(url)] rejects, or resolves to a response with its [ok] flag and
    the outcome of [response.json()]. *)
Inductive FetchResult :=
| NetworkError
| Response (ok : bool) (json : option Body.t).

Class Host := {
  Math_sqrt : Q -> Q;
  (** the [n]-th value [Math.random()] returns *)
  Math_random : nat -> Q;
  (** [format(parseISO(ts), 'yyyy-MM-dd')] *)
  format_day : string -> string;
  (** [format(parseISO(ts), 'yyyyMMdd')] *)
  format_key : string -> string;
  parseInt : string -> Q;
  toString : Q -> string;
  (** the answer to a request, given how many events came before it *)
  fetch : nat -> Query.t -> FetchResult;
  (** [parseGPSData] or [parseGPSDataFromJSON] on a file, by its
      extension: the points read, or the message of the error thrown. *)
  File : Type;
  readFile : File -> list GPSPoint.t + string
}.

(** What a run leaves behind: the requests sent and the delays waited
    for, in order, and the number of random draws taken. *)
Inductive Event :=
| Request (q : Query.t)
| Delay (ms : nat).

Module World.
Record t := mk { trace : list Event; draws : nat }.
End World.

(** State passing, with [None] for arithmetic that leaves the finite
    numbers. *)
Definition M (A : Type) : Type := World.t -> option (A * World.t).

#[export] Instance M_ret : MRet M := fun A x w => Some (x, w).
#[export] Instance M_bind : MBind M := fun A B f m w =>
  match m w with
  | Some (x, w') => f x w'
  | None => None
  end.

Definition lift {A} (o : option A) : M A := fun w =>
  match o with
  | Some x => Some (x, w)
  | None => None
  end.

Definition emit (e : Event) : M unit := fun w =>
  Some (tt, {| World.trace := World.trace w ++ [e]; World.draws := World.draws w |}).

(** [for (const x of xs) body(x)] with an accumulator *)
Fixpoint forM {A S} (body : S -> A -> M S) (acc : S) (xs : list A) : M S :=
  match xs with
  | [] => mret acc
  | x :: xs' => acc' ← body acc x; forM body acc' xs'
  end.

(** ** A JavaScript [Map] with string keys: entries in insertion order *)

Module JsMap.
Section Defs.
Context {V : Type}.

Definition t := list (string * V).

Fixpoint get (k : string) (m : t) : option V :=
  match m with
  | [] => None
  | (k', v) :: m' => if decide (k' = k) then Some v else get k m'
  end.

Definition has (k : string) (m : t) : bool := bool_decide (is_Some (get k m)).

(** [m.set(k, v)]: an existing key keeps its place. *)
Fixpoint set (k : string) (v : V) (m : t) : t :=
  match m with
  | [] => [(k, v)]
  | (k', v') :: m' => if decide (k' = k) then (k', v) :: m' else (k', v') :: set k v m'
  end.

(** a mutation of the value stored under [k], as [m.get(k)!.push(x)] is *)
Fixpoint update (k : string) (f : V -> V) (m : t) : t :=
  match m with
  | [] => []
  | (k', v) :: m' => if decide (k' = k) then (k', f v) :: m' else (k', v) :: update k f m'
  end.

Definition entries (m : t) : list (string * V) := m.
End Defs.
Arguments t : clear implicits.
End JsMap.

(** ** The route-to-climate pipeline ([DataProcessor]) *)

Module DataProcessor.
Section WithHost.
Context `{Host}.
Local Open Scope Q_scope.

(** [points.length] as a number *)
Definition len {A} (l : list A) : Q := inject_Z (Z.of_nat (length l)).

(** [Math.min(...xs)] and [Math.max(...xs)]; infinite on no argument. *)
Definition Math_min (xs : list Q) : option Q :=
  match xs with
  | [] => None
  | x :: xs' => Some (foldl Qmin x xs')
  end.
Definition Math_max (xs : list Q) : option Q :=
  match xs with
  | [] => None
  | x :: xs' => Some (foldl Qmax x xs')
  end.

Definition aggregateStep (dailyGroups : JsMap.t (list GPSPoint.t)) (point : GPSPoint.t)
    : JsMap.t (list GPSPoint.t) :=
  let date := format_day (GPSPoint.timestamp point) in
  let dailyGroups :=
    if negb (JsMap.has date dailyGroups) then JsMap.set date [] dailyGroups
    else dailyGroups in
  JsMap.update date (fun points => points ++ [point]) dailyGroups.

Definition aggregateEntry (entry : string * list GPSPoint.t) : option GPSPoint.t :=
  let '(date, points) := entry in
  avgLat ← Num.sum (GPSPoint.latitude <$> points) // len points;
  avgLng ← Num.sum (GPSPoint.longitude <$> points) // len points;
  Some {| GPSPoint.timestamp := date +:+ "T12:00:00Z";
          GPSPoint.latitude := avgLat;
          GPSPoint.longitude := avgLng |}.

Definition aggregateByDay (gpsPoints : list GPSPoint.t) : option (list GPSPoint.t) :=
  let dailyGroups := foldl aggregateStep [] gpsPoints in
  mapM aggregateEntry (JsMap.entries dailyGroups).

Definition calculateDistance (lat1 lon1 lat2 lon2 : Q) : Q :=
  Math_sqrt ((lat2 - lat1) ^ 2 + (lon2 - lon1) ^ 2).

(** The two loops of [groupPointsByProximity].  Every point is kept
    with the index it was read from; the source pushes the point alone,
    and [groupPointsByProximity] forgets the index again. *)
Definition groupInner (points : list GPSPoint.t) (threshold : Q) (pi : GPSPoint.t)
    (st : list (nat * GPSPoint.t) * gset nat) (j : nat)
    : list (nat * GPSPoint.t) * gset nat :=
  let '(group, processed) := st in
  if decide (j ∈ processed) then st
  else match points !! j with
       | Some pj =>
           let distance := calculateDistance
             (GPSPoint.latitude pi) (GPSPoint.longitude pi)
             (GPSPoint.latitude pj) (GPSPoint.longitude pj) in
           if Num.ltb distance threshold
           then (group ++ [(j, pj)], processed ∪ {[j]})
           else st
       | None => st
       end.

Definition groupOuter (points : list GPSPoint.t) (threshold : Q)
    (st : list (list (nat * GPSPoint.t)) * gset nat) (i : nat)
    : list (list (nat * GPSPoint.t)) * gset nat :=
  let '(groups, processed) := st in
  if decide (i ∈ processed) then st
  else match points !! i with
       | Some pi =>
           let '(group, processed) :=
             foldl (groupInner points threshold pi)
                   ([(i, pi)], processed ∪ {[i]})
                   (seq (i + 1) (length points - (i + 1))) in
           (groups ++ [group], processed)
       | None => st
       end.

Definition groupIndexed (points : list GPSPoint.t) (threshold : Q)
    : list (list (nat * GPSPoint.t)) :=
  (foldl (groupOuter points threshold) ([], ∅) (seq 0 (length points))).1.

Definition groupPointsByProximity (points : list GPSPoint.t) (threshold : Q)
    : list (list GPSPoint.t) :=
  (fun group : list (nat * GPSPoint.t) => snd <$> group) <$> groupIndexed points threshold.

Definition calculateCenterPoint (points : list GPSPoint.t) : option (Q * Q) :=
  avgLat ← Num.sum (GPSPoint.latitude <$> points) // len points;
  avgLng ← Num.sum (GPSPoint.longitude <$> points) // len points;
  Some (avgLat, avgLng).

Definition parameterNames : string :=
  "T2M,T2M_MAX,T2M_MIN,RH2M,ALLSKY_SFC_SW_DWN,ALLSKY_SFC_UVA,ALLSKY_SFC_UVB,WS2M,PRECTOTCORR".

(** [callNASAPowerAPI]: [inl data] when it returns, [inr tt] when it
    throws. *)
Definition callNASAPowerAPI (latitude longitude : Q) (startDate endDate : string)
    : M (Body.t + unit) := fun w =>
  let url := {| Query.parameters := parameterNames;
                Query.community := "RE";
                Query.longitude := longitude;
                Query.latitude := latitude;
                Query.start := startDate;
                Query.end_ := endDate |} in
  let response := fetch (length (World.trace w)) url in
  let w := {| World.trace := World.trace w ++ [Request url];
              World.draws := World.draws w |} in
  match response with
  | NetworkError => Some (inr tt, w)
  | Response ok json =>
      if negb ok then Some (inr tt, w)
      else match json with
           | None => Some (inr tt, w)
           | Some data =>
               match Body.properties data ≫= Properties.parameter with
               | None => Some (inr tt, w)
               | Some _ => Some (inl data, w)
               end
           end
  end.

Definition calculateUVIndex (uva uvb : Q) : Q :=
  let totalUV := uva + uvb in
  Qmin 11 (Qmax 0 (totalUV / 25)).

Definition random : M Q := fun w =>
  Some (Math_random (World.draws w),
        {| World.trace := World.trace w; World.draws := S (World.draws w) |}).

Definition generateMockClimateData (point : GPSPoint.t) : M ClimateData.t :=
  r1 ← random; r2 ← random; r3 ← random; r4 ← random; r5 ← random;
  mret {| ClimateData.date := format_day (GPSPoint.timestamp point);
          ClimateData.latitude := GPSPoint.latitude point;
          ClimateData.longitude := GPSPoint.longitude point;
          ClimateData.temperature := 20 + r1 * 25;
          ClimateData.maxTemperature := 25 + r2 * 30;
          ClimateData.solarRadiation := 100 + r3 * 400;
          ClimateData.humidity := 30 + r4 * 50;
          ClimateData.uvIndex := 1 + r5 * 10 |}.

(** [table?.[dateKey]] *)
Definition at_key (table : option (gmap string Q)) (dateKey : string) : option Q :=
  table ≫= (.!! dateKey).

(** The body of the loop that maps the provider's answer onto the points
    of a group. *)
Definition mapPoint (dayData : DayData.t) (results : list ClimateData.t)
    (point : GPSPoint.t) : list ClimateData.t :=
  let dateKey := format_key (GPSPoint.timestamp point) in
  match at_key (DayData.T2M dayData) dateKey with
  | Some t2m =>
      results ++ [
        {| ClimateData.date := format_day (GPSPoint.timestamp point);
           ClimateData.latitude := GPSPoint.latitude point;
           ClimateData.longitude := GPSPoint.longitude point;
           ClimateData.temperature := t2m;
           ClimateData.maxTemperature :=
             Num.or_default (at_key (DayData.T2M_MAX dayData) dateKey) (t2m + 5);
           ClimateData.solarRadiation :=
             Num.or_default (at_key (DayData.ALLSKY_SFC_SW_DWN dayData) dateKey) 200;
           ClimateData.humidity :=
             Num.or_default (at_key (DayData.RH2M dayData) dateKey) 50;
           ClimateData.uvIndex :=
             calculateUVIndex
               (Num.or_default (at_key (DayData.ALLSKY_SFC_UVA dayData) dateKey) 0)
               (Num.or_default (at_key (DayData.ALLSKY_SFC_UVB dayData) dateKey) 0) |} ]
  | None => results
  end.

(** The [catch] block: mock data for every point of the group. *)
Definition mockPoint (results : list ClimateData.t) (point : GPSPoint.t)
    : M (list ClimateData.t) :=
  mock ← generateMockClimateData point;
  mret (results ++ [mock]).

(** The body of the loop over the groups. *)
Definition fetchGroup (results : list ClimateData.t) (group : list GPSPoint.t)
    : M (list ClimateData.t) :=
  '(centerLat, centerLng) ← lift (calculateCenterPoint group);
  let dates := (fun p => format_key (GPSPoint.timestamp p)) <$> group in
  startDate ← lift (Math_min (parseInt <$> dates));
  endDate ← lift (Math_max (parseInt <$> dates));
  apiData ← callNASAPowerAPI centerLat centerLng (toString startDate) (toString endDate);
  match apiData with
  | inl data =>
      match Body.properties data ≫= Properties.parameter with
      | Some dayData =>
          let results := foldl (mapPoint dayData) results group in
          _ ← emit (Delay 100);
          mret results
      | None => forM mockPoint results group
      end
  | inr _ => forM mockPoint results group
  end.

Definition fetchClimateData (gpsPoints : list GPSPoint.t) : M (list ClimateData.t) :=
  let groupedPoints := groupPointsByProximity gpsPoints 0.1 in
  forM fetchGroup [] groupedPoints.

End WithHost.
End DataProcessor.

(** ** The two handlers of [App]

    A handler runs to completion before the next one starts; its state
    updates are applied in the order the source issues them. *)

Module App.
Section WithHost.
Context `{Host}.








Definition start : World.t := {| World.trace := []; World.draws := 0 |}.


End WithHost.
End App.

(** ** A host to run the program on

    Square roots are exact on squares of rationals given in lowest terms
    and rounded down otherwise, timestamps are read as
    [yyyy-MM-ddTHH:mm:ssZ], every random draw is one half, and a file is
    the list of points read from it.  The network is left open. *)

Module Demo.
Local Open Scope Q_scope.

Definition sqrt (q : Q) : Q := Z.sqrt (Qnum q) # Pos.sqrt (Qden q).

Definition day (ts : string) : string := String.substring 0 10 ts.

Definition key (ts : string) : string :=
  String.substring 0 4 ts +:+ String.substring 5 2 ts +:+ String.substring 8 2 ts.

Fixpoint digits (acc : Z) (s : string) : Z :=
  match s with
  | String c s' =>
      let d := (Z.of_N (Ascii.N_of_ascii c) - 48)%Z in
      if bool_decide (0 <= d < 10)%Z then digits (10 * acc + d)%Z s' else acc
  | EmptyString => acc
  end.

Definition int (s : string) : Q := inject_Z (digits 0 s).

Definition show (q : Q) : string := pretty (Qnum q / Zpos (Qden q))%Z.

Definition host (net : nat -> Query.t -> FetchResult) : Host := {|
  Math_sqrt := sqrt;
  Math_random := fun _ => 0.5;
  format_day := day;
  format_key := key;
  parseInt := int;
  toString := show;
  fetch := net;
  File := list GPSPoint.t;
  readFile := inl
|}.

(** A provider that answers every request with the same tables. *)
Definition answers (dayData : DayData.t) : nat -> Query.t -> FetchResult :=
  fun _ _ => Response true (Some (Body.mk (Some (Properties.mk (Some dayData))))).

(** A provider that is down. *)
Definition down : nat -> Query.t -> FetchResult := fun _ _ => NetworkError.

Definition wood : SurfaceProperties.t :=
  {| SurfaceProperties.albedo := 0.25;
     SurfaceProperties.emissivity := 0.90;
     SurfaceProperties.materialType := "wood" |}.

(** The inputs of the examples. *)
Definition noon : GPSPoint.t :=
  {| GPSPoint.timestamp := "2024-01-15T12:00:00Z";
     GPSPoint.latitude := 10; GPSPoint.longitude := 20 |}.

Definition table (value : Q) : option (gmap string Q) :=
  Some {[ "20240115" := value ]}.


(** A mild day, every value present and none of them zero. *)
Definition mild : DayData.t :=
  {| DayData.T2M := table 25; DayData.T2M_MAX := table 31; DayData.RH2M := table 60;
     DayData.ALLSKY_SFC_SW_DWN := table 300; DayData.ALLSKY_SFC_UVA := table 20;
     DayData.ALLSKY_SFC_UVB := table 5 |}.

(** A day of frost in the polar night: the maximum temperature and the
    solar radiation are present and zero. *)
Definition frost : DayData.t :=
  {| DayData.T2M := table (-3); DayData.T2M_MAX := table 0; DayData.RH2M := table 80;
     DayData.ALLSKY_SFC_SW_DWN := table 0; DayData.ALLSKY_SFC_UVA := None;
     DayData.ALLSKY_SFC_UVB := None |}.

(** Three points on a line: the second is 0.05 from the first, the third
    exactly 0.1. *)
Definition origin0 : GPSPoint.t :=
  {| GPSPoint.timestamp := "2024-01-15T12:00:00Z";
     GPSPoint.latitude := 0; GPSPoint.longitude := 0 |}.
Definition near : GPSPoint.t :=
  {| GPSPoint.timestamp := "2024-01-16T12:00:00Z";
     GPSPoint.latitude := 0.05; GPSPoint.longitude := 0 |}.
Definition edge : GPSPoint.t :=
  {| GPSPoint.timestamp := "2024-01-17T12:00:00Z";
     GPSPoint.latitude := 0.1; GPSPoint.longitude := 0 |}.


End Demo.

(** ** Vocabulary of the properties *)

Section Vocabulary.
Context `{Host}.
Local Open Scope Q_scope.

(** Kay's fraction, numerator and denominator. *)
Definition kayN (rh : Q) : Q := 330 + 0.452 * rh + 0.00415 * rh * rh.
Definition kayD (rh : Q) : Q := 100 + 1.27 * rh + 0.0135 * rh * rh.

(** The distance of two points, as [groupPointsByProximity] calls
    [calculateDistance]. *)
Definition distance (p q : GPSPoint.t) : Q :=
  DataProcessor.calculateDistance
    (GPSPoint.latitude p) (GPSPoint.longitude p)
    (GPSPoint.latitude q) (GPSPoint.longitude q).

(** The indices of the points of some groups, group after group. *)
Definition indices (groups : list (list (nat * GPSPoint.t))) : list nat :=
  concat ((fun group : list (nat * GPSPoint.t) => group.*1) <$> groups).

(** A group as the outer loop leaves it: a seed, then later points of the
    input that are nearer to the seed than the threshold. *)
Definition seeded (points : list GPSPoint.t) (threshold : Q)
    (group : list (nat * GPSPoint.t)) : Prop :=
  match group with
  | [] => False
  | (i, pi) :: rest =>
      points !! i = Some pi /\
      Forall (fun jp => (i < jp.1)%nat /\ points !! jp.1 = Some jp.2 /\
                        distance pi jp.2 < threshold) rest
  end.

(** What holds of the groups and of the set [processed] when the outer
    loop is about to read index [k]. *)
Record outer_inv (points : list GPSPoint.t) (threshold : Q) (k : nat)
    (groups : list (list (nat * GPSPoint.t))) (processed : gset nat) : Prop := {
  inv_nodup : NoDup (indices groups);
  inv_processed : forall x, x ∈ indices groups <-> x ∈ processed;
  inv_before : forall x, (x < k)%nat -> x ∈ processed;
  inv_bound : forall x, x ∈ processed -> (x < length points)%nat;
  inv_seeded : Forall (seeded points threshold) groups
}.

(** The samples of one calendar date, and the arithmetic mean. *)
Definition sameDay (d : string) (samples : list GPSPoint.t) : list GPSPoint.t :=
  filter (fun s => format_day (GPSPoint.timestamp s) = d) samples.

Definition mean (xs : list Q) : Q :=
  foldr Qplus 0 xs / inject_Z (Z.of_nat (length xs)).

(** What identifies the point a record was made for: its date and its
    coordinates. *)
Definition footprint (point : GPSPoint.t) : string * Q * Q :=
  (format_day (GPSPoint.timestamp point),
   GPSPoint.latitude point, GPSPoint.longitude point).

Definition origin (record : ClimateData.t) : string * Q * Q :=
  (ClimateData.date record, ClimateData.latitude record, ClimateData.longitude record).



End Vocabulary.

(** ** More vocabulary *)

(** The three levels in their order. *)
Definition rank (level : Level) : nat :=
  match level with Low => 0 | Medium => 1 | High => 2 end.

Section VocabularyOfGroups.
Context `{Host}.
Local Open Scope Q_scope.

(** The indices of the seeds of some groups, in the order of the
    groups. *)
Definition seeds (groups : list (list (nat * GPSPoint.t))) : list nat :=
  omap (fun group : list (nat * GPSPoint.t) => fst <$> head group) groups.

(** Every point of the second group comes after the seed of the first
    and is not nearer to it than the threshold. *)
Definition apart (threshold : Q) (first second : list (nat * GPSPoint.t)) : Prop :=
  forall i pi rest j pj,
    first = (i, pi) :: rest -> (j, pj) ∈ second ->
    (i < j)%nat /\ ~ distance pi pj < threshold.

(** What the outer loop keeps besides [outer_inv]: the seeds so far are
    increasing and below [k], every group lists its indices in increasing
    order, no point still free is near an earlier seed, and later groups
    keep away from earlier seeds. *)
Record outer_order (points : list GPSPoint.t) (threshold : Q) (k : nat)
    (groups : list (list (nat * GPSPoint.t))) (processed : gset nat) : Prop := {
  ord_seeds : seeds groups `sublist_of` seq 0 k;
  ord_groups : Forall (fun group : list (nat * GPSPoint.t) =>
                         group.*1 `sublist_of` seq 0 (length points)) groups;
  ord_free : forall i pi rest j pj,
    (i, pi) :: rest ∈ groups -> (i < j)%nat -> points !! j = Some pj ->
    j ∉ processed -> ~ distance pi pj < threshold;
  ord_apart : forall a b first second,
    (a < b)%nat -> groups !! a = Some first -> groups !! b = Some second ->
    apart threshold first second
}.

End VocabularyOfGroups.

(** The distinct elements of a list in the order of their first
    appearance. *)
Definition firstSeen (l : list string) : list string :=
  foldl (fun seen d => if decide (d ∈ seen) then seen else seen ++ [d]) [] l.

Section VocabularyOfRequests.
Context `{Host}.
Local Open Scope Q_scope.

(** The requests of a trace, in order. *)
Definition requests (trace : list Event) : list Query.t :=
  omap (fun e => match e with Request q => Some q | Delay _ => None end) trace.

(** The tables of an answer that [callNASAPowerAPI] accepts; [None] for
    every answer it throws on. *)
Definition answer (response : FetchResult) : option DayData.t :=
  match response with
  | Response true (Some data) => Body.properties data ≫= Properties.parameter
  | _ => None
  end.

(** The request [fetchClimateData] sends for a group: at the centroid of
    the group, from the least to the greatest date of its points. *)
Definition requestFor (group : list GPSPoint.t) (q : Query.t) : Prop :=
  exists lo hi,
    DataProcessor.calculateCenterPoint group = Some (Query.latitude q, Query.longitude q) /\
    DataProcessor.Math_min
      (parseInt <$> ((fun p => format_key (GPSPoint.timestamp p)) <$> group)) = Some lo /\
    DataProcessor.Math_max
      (parseInt <$> ((fun p => format_key (GPSPoint.timestamp p)) <$> group)) = Some hi /\
    lo <= hi /\
    Query.start q = toString lo /\ Query.end_ q = toString hi /\
    Query.parameters q = DataProcessor.parameterNames /\
    Query.community q = "RE".

(** The ranges of a mock record. *)
Definition synthetic (record : ClimateData.t) : Prop :=
  20 <= ClimateData.temperature record < 45 /\
  25 <= ClimateData.maxTemperature record < 55 /\
  100 <= ClimateData.solarRadiation record < 500 /\
  30 <= ClimateData.humidity record < 80 /\
  1 <= ClimateData.uvIndex record < 11.

End VocabularyOfRequests.

(** ** The configuration panel ([ConfigurationPanel])

    The panel reads the configuration of [App] and reports every change
    through [onConfigChange], which is [App.handleConfigChange]. *)

Module ConfigurationPanel.
Local Open Scope Q_scope.

Module Material.
Record t := mk { value : string; label : string; albedo : Q; emissivity : Q }.
End Material.








End ConfigurationPanel.

(** ** Ingestion ([parseGPSData], [parseGPSDataFromJSON])

    What the two parsers do with the rows that [Papa.parse] and
    [JSON.parse] hand them.  A field of a row is absent, a number or a
    text ([Papa.parse] with [header: true] yields texts only); the other
    JSON values are outside the model.  [parseFloat] on a text is the
    host's, with [None] for NaN; on a finite number it returns the
    number. *)

Module Ingestion.

Inductive Value :=
| Number (q : Q)
| Text (s : string).

(** The point a row is mapped to, before the filter: a coordinate that
    is NaN is [None]. *)
Module Point.
Record t := mk {
  timestamp : option Value;
  latitude : option Q;
  longitude : option Q
}.
End Point.

(** What [JSON.parse] returned: an array of items, or something else. *)
Inductive Parsed :=
| Items (items : list (gmap string Value))
| Other.

(** A value in a condition: [undefined], [0] and the empty text are
    falsy. *)
Definition truthy (v : option Value) : bool :=
  match v with
  | Some (Number q) => negb (Qeq_bool q 0)
  | Some (Text s) => negb (bool_decide (s = ""))
  | None => false
  end.

(** [a || b] *)
Definition or (a b : option Value) : option Value :=
  if truthy a then a else b.

Section WithParseFloat.
Variable parseFloat : string -> option Q.

Definition parseFloatOf (v : option Value) : option Q :=
  match v with
  | Some (Number q) => Some q
  | Some (Text s) => parseFloat s
  | None => None
  end.

(** The filter of both parsers:
    [!isNaN(point.latitude) && !isNaN(point.longitude) && point.timestamp] *)
Definition keep (point : Point.t) : bool :=
  bool_decide (is_Some (Point.latitude point)) &&
  bool_decide (is_Some (Point.longitude point)) &&
  truthy (Point.timestamp point).



Definition jsonPoint (item : gmap string Value) : Point.t :=
  {| Point.timestamp := or (or (item !! "Timestamp") (item !! "time")) (item !! "date");
     Point.latitude := parseFloatOf (or (item !! "Latitude") (item !! "lat"));
     Point.longitude :=
       parseFloatOf (or (or (item !! "Longitude") (item !! "lng")) (item !! "lon")) |}.

(** [parseGPSDataFromJSON], on the value of [JSON.parse(text)]: the
    points, or the message of the error thrown. *)
Definition parseGPSDataFromJSON (data : Parsed) : list Point.t + string :=
  match data with
  | Items items => inl (List.filter keep (List.map jsonPoint items))
  | Other => inr "Invalid JSON format - expected array of GPS points"
  end.

End WithParseFloat.
End Ingestion.

(** ** More inputs for the examples *)

Module Sample.
Local Open Scope Q_scope.

(** A sunny day as a climate record. *)
Definition sunny : ClimateData.t :=
  {| ClimateData.date := "2024-01-15";
     ClimateData.latitude := 10;
     ClimateData.longitude := 20;
     ClimateData.temperature := 25;
     ClimateData.maxTemperature := 31;
     ClimateData.solarRadiation := 300;
     ClimateData.humidity := 60;
     ClimateData.uvIndex := 1 |}.


(** An item of a JSON array on the equator, its latitude a number. *)
Definition equator : gmap string Ingestion.Value :=
  {[ "Timestamp" := Ingestion.Text "2024-01-15T12:00:00Z";
     "Latitude" := Ingestion.Number 0;
     "Longitude" := Ingestion.Number 20 ]}.

End Sample.


(** * Properties *)

(** ** Numbers *)

Section NumFacts.
Local Open Scope Q_scope.

Lemma div_Some x y : ~ y == 0 -> x // y = Some (x / y).
Proof.
  intros Hy. unfold Num.div. destruct (Qeq_bool y 0) eqn:E; [|reflexivity].
  apply Qeq_bool_iff in E. contradiction.
Qed.

Lemma div_None x y : y == 0 -> x // y = None.
Proof.
  intros Hy. unfold Num.div. apply Qeq_bool_iff in Hy. now rewrite Hy.
Qed.

Lemma gtb_true x y : Num.gtb x y = true <-> y < x.
Proof.
  unfold Num.gtb. rewrite (Qgt_alt x y). destruct (x ?= y); split; congruence.
Qed.

Lemma ltb_true x y : Num.ltb x y = true <-> x < y.
Proof.
  unfold Num.ltb. rewrite Qlt_alt. destruct (x ?= y); split; congruence.
Qed.

Lemma max_0_pos x : 0 <= x -> Qmax 0 x == x.
Proof. intros Hx. now apply Q.max_r. Qed.

(** Two fractions with positive denominators compare as their cross
    products do. *)
Lemma frac_le n1 d1 n2 d2 :
  0 < d1 -> 0 < d2 -> n1 * d2 <= n2 * d1 -> n1 / d1 <= n2 / d2.
Proof.
  intros H1 H2 Hc.
  apply Qle_shift_div_r; [assumption|].
  assert (Hq : n2 / d2 * d2 == n2) by (field; lra).
  generalize dependent (n2 / d2). intros q Hq. nra.
Qed.

Lemma frac_lt n1 d1 n2 d2 :
  0 < d1 -> 0 < d2 -> n1 * d2 < n2 * d1 -> n1 / d1 < n2 / d2.
Proof.
  intros H1 H2 Hc.
  apply Qlt_shift_div_r; [assumption|].
  assert (Hq : n2 / d2 * d2 == n2) by (field; lra).
  generalize dependent (n2 / d2). intros q Hq. nra.
Qed.

End NumFacts.

(** ** The surface physics engine *)

Section Physics.
Import ClimateCalculations.
Local Open Scope Q_scope.

Lemma kayD_pos rh : 0 < kayD rh.
Proof. unfold kayD. nra. Qed.

Lemma kayN_pos rh : 0 < kayN rh.
Proof. unfold kayN. nra. Qed.

Lemma calculateEMC_total temperature humidity :
  calculateEMC temperature humidity =
    Some {| EMC.average := Qmax 0 (kayN (Qmin humidity 95) / kayD (Qmin humidity 95));
            EMC.peak := Qmax 0 (kayN (Qmin humidity 95) / kayD (Qmin humidity 95)
                                * (1 + (temperature - 20) * 0.02)) |}.
Proof.
  unfold calculateEMC. fold (kayN (Qmin humidity 95)) (kayD (Qmin humidity 95)).
  rewrite div_Some; [reflexivity|].
  pose proof (kayD_pos (Qmin humidity 95)). lra.
Qed.

Lemma kay_pos rh : 0 < kayN rh / kayD rh.
Proof.
  apply Qlt_shift_div_l; [apply kayD_pos|]. pose proof (kayN_pos rh). lra.
Qed.

(** The fraction falls as the humidity rises, from [0] on. *)
Lemma kay_antitone a b : 0 <= a -> a <= b -> kayN b / kayD b <= kayN a / kayD a.
Proof.
  intros Ha Hab. apply frac_le; try apply kayD_pos.
  unfold kayN, kayD.
  assert (0 <= (b - a) * (a + b)) by nra.
  assert (0 <= a * b) by nra.
  assert (0 <= (b - a) * (a * b)) by (apply Qmult_le_0_compat; lra).
  nra.
Qed.

Lemma kay_strict a b : 0 <= a -> a < b -> kayN b / kayD b < kayN a / kayD a.
Proof.
  intros Ha Hab. apply frac_lt; try apply kayD_pos.
  unfold kayN, kayD.
  assert (0 <= (b - a) * (a + b)) by nra.
  assert (0 <= a * b) by nra.
  assert (0 <= (b - a) * (a * b)) by (apply Qmult_le_0_compat; lra).
  nra.
Qed.

Lemma calculateSurfaceTemperature_total airTemp solarRadiation properties :
  ~ SurfaceProperties.emissivity properties == 0 ->
  calculateSurfaceTemperature airTemp solarRadiation properties =
    Some (airTemp + solarRadiation * (1 - SurfaceProperties.albedo properties)
                    / (SurfaceProperties.emissivity properties * sigma * 20) * 0.1).
Proof.
  intros He. unfold calculateSurfaceTemperature.
  rewrite div_Some; [reflexivity|].
  intros E. apply He.
  apply Qmult_integral in E. destruct E as [E|E]; [|discriminate].
  apply Qmult_integral in E. destruct E as [E|E]; [assumption|discriminate].
Qed.




(** C3 (as the code has it): the comparisons of the cracking risk are
    strict, so a surface temperature of exactly 40 is still Low and one of
    exactly 60 is still Medium; 39.999 is Low. *)
Theorem crackingRisk_boundaries (emcAverage emcPeak cumulativeUV : Q) :
  RiskAssessment.crackingRisk (assessRisks 40 emcAverage emcPeak cumulativeUV) = Low /\
  RiskAssessment.crackingRisk (assessRisks 60 emcAverage emcPeak cumulativeUV) = Medium /\
  RiskAssessment.crackingRisk (assessRisks 39.999 emcAverage emcPeak cumulativeUV) = Low.
Proof. repeat split. Qed.

(** C3, the claim as stated fails: at exactly 40 the risk is not Medium
    and at exactly 60 it is not High. *)
Lemma crackingRisk_boundaries_claim_fails :
  RiskAssessment.crackingRisk (assessRisks 40 0 0 0) <> Medium /\
  RiskAssessment.crackingRisk (assessRisks 60 0 0 0) <> High.
Proof. split; discriminate. Qed.

(** The cracking risk in general: High above 60, Medium above 40 and up
    to 60, Low up to 40. *)
Lemma crackingRisk_spec surfaceTemp emcAverage emcPeak cumulativeUV :
  match RiskAssessment.crackingRisk
          (assessRisks surfaceTemp emcAverage emcPeak cumulativeUV) with
  | High => 60 < surfaceTemp
  | Medium => 40 < surfaceTemp <= 60
  | Low => surfaceTemp <= 40
  end.
Proof.
  unfold assessRisks; simpl.
  destruct (Num.gtb surfaceTemp 60) eqn:E60.
  - now apply gtb_true.
  - destruct (Num.gtb surfaceTemp 40) eqn:E40.
    + split; [now apply gtb_true|]. apply Qnot_lt_le. intros Hlt.
      apply gtb_true in Hlt. congruence.
    + apply Qnot_lt_le. intros Hlt. apply gtb_true in Hlt. congruence.
Qed.

(** C5 (as the code has it): from humidity 0 on, the EMC average never
    rises with the humidity, and above 95 it stays at its value at 95,
    whatever the temperature. *)
Theorem emc_average_antitone (temperature h1 h2 : Q) :
  exists e1 e2 e95,
    calculateEMC temperature h1 = Some e1 /\
    calculateEMC temperature h2 = Some e2 /\
    calculateEMC temperature 95 = Some e95 /\
    (0 <= h1 -> h1 <= h2 -> EMC.average e2 <= EMC.average e1) /\
    (95 <= h1 -> EMC.average e1 == EMC.average e95).
Proof.
  rewrite !calculateEMC_total. do 3 eexists. repeat split; simpl.
  - intros H0 H12.
    rewrite !max_0_pos by (apply Qlt_le_weak, kay_pos).
    apply kay_antitone.
    + apply Q.min_glb; lra.
    + apply Q.min_le_compat_r. assumption.
  - intros H95.
    assert (E : Qmin h1 95 == 95) by (apply Q.min_r; assumption).
    rewrite !max_0_pos by (apply Qlt_le_weak, kay_pos).
    unfold kayN, kayD. rewrite E. reflexivity.
Qed.

(** C5, the claim as stated fails: between humidity 0 and humidity 60,
    both below 95, the EMC average falls. *)
Lemma emc_average_not_monotone :
  exists e1 e2,
    calculateEMC 20 0 = Some e1 /\ calculateEMC 20 60 = Some e2 /\
    0 <= 60 /\ 60 <= 95 /\ EMC.average e2 < EMC.average e1.
Proof. do 2 eexists. repeat split; try reflexivity; discriminate. Qed.


(** C9: the division of [calculateSurfaceTemperature] is by
    [emissivity * sigma * 20]; with a non-zero emissivity the result is the
    number the formula gives, and with emissivity 0, which the declared
    range admits, the divisor is zero and there is no finite result, also
    for an albedo below 1 and a positive solar radiation. *)
Theorem calculateSurfaceTemperature_division
    (airTemp solarRadiation : Q) (properties : SurfaceProperties.t) :
  (~ SurfaceProperties.emissivity properties == 0 ->
   exists surfaceTemp,
     calculateSurfaceTemperature airTemp solarRadiation properties = Some surfaceTemp /\
     surfaceTemp == airTemp + 0.1 * (solarRadiation * (1 - SurfaceProperties.albedo properties)
                      / (SurfaceProperties.emissivity properties * sigma * 20))) /\
  (SurfaceProperties.emissivity properties == 0 ->
   SurfaceProperties.emissivity properties * sigma * 20 == 0 /\
   calculateSurfaceTemperature airTemp solarRadiation properties = None) /\
  (exists (solar : Q) (accepted : SurfaceProperties.t),
     0 <= SurfaceProperties.emissivity accepted <= 1 /\
     SurfaceProperties.emissivity accepted == 0 /\
     0 <= SurfaceProperties.albedo accepted < 1 /\
     0 < solar /\
     SurfaceProperties.emissivity accepted * sigma * 20 == 0 /\
     calculateSurfaceTemperature 25 solar accepted = None).
Proof.
  split; [|split].
  - intros He. eexists. split.
    + apply calculateSurfaceTemperature_total, He.
    + ring.
  - intros He.
    assert (Hz : SurfaceProperties.emissivity properties * sigma * 20 == 0)
      by (rewrite He; ring).
    split; [exact Hz|].
    unfold calculateSurfaceTemperature. rewrite div_None by exact Hz. reflexivity.
  - exists 300, {| SurfaceProperties.albedo := 0.25;
                   SurfaceProperties.emissivity := 0;
                   SurfaceProperties.materialType := "wood" |}.
    repeat split; simpl; try reflexivity; discriminate.
Qed.

End Physics.

(** ** Proximity clustering *)

Section Clustering.
Context `{Host}.
Import DataProcessor.
Local Open Scope Q_scope.

Variable points : list GPSPoint.t.
Variable threshold : Q.

Lemma groupInner_foldl pi js : forall group processed,
  exists added,
    foldl (groupInner points threshold pi) (group, processed) js
      = (group ++ added, processed ∪ list_to_set (added.*1)) /\
    NoDup (added.*1) /\
    Forall (fun jp => jp.1 ∈ js /\ (jp.1 ∉ processed) /\
                      points !! jp.1 = Some jp.2 /\
                      distance pi jp.2 < threshold) added.
Proof.
  induction js as [|j js IH]; intros group processed.
  - exists []. simpl. rewrite app_nil_r. split; [f_equal; simpl; now rewrite (right_id_L ∅ (∪))|].
    split; constructor.
  - cbn [foldl]. unfold groupInner at 2.
    assert (Hskip : exists added,
      foldl (groupInner points threshold pi) (group, processed) js
        = (group ++ added, processed ∪ list_to_set (added.*1)) /\
      NoDup (added.*1) /\
      Forall (fun jp => jp.1 ∈ j :: js /\ (jp.1 ∉ processed) /\
                        points !! jp.1 = Some jp.2 /\
                        distance pi jp.2 < threshold) added).
    { destruct (IH group processed) as (added & Hf & Hnd & Hall).
      exists added. split; [exact Hf|]. split; [exact Hnd|].
      eapply Forall_impl; [exact Hall|]. simpl. intros jp (? & ? & ? & ?).
      repeat split; try assumption. apply elem_of_cons; now right. }
    destruct (decide (j ∈ processed)) as [Hin|Hout]; [exact Hskip|].
    destruct (points !! j) as [pj|] eqn:Hj; [|exact Hskip].
    fold (distance pi pj).
    destruct (Num.ltb (distance pi pj) threshold) eqn:Hlt; [|exact Hskip].
    destruct (IH (group ++ [(j, pj)]) (processed ∪ {[j]})) as (added & Hf & Hnd & Hall).
    exists ((j, pj) :: added). split; [|split].
    + rewrite Hf. f_equal.
      * now rewrite <- app_assoc.
      * rewrite fmap_cons. simpl. set_solver.
    + rewrite fmap_cons. simpl. constructor; [|exact Hnd].
      intros Hjin. apply list_elem_of_fmap in Hjin as (jp & Hjp & Hjpin).
      rewrite Forall_forall in Hall. apply Hall in Hjpin as (_ & Hn & _).
      apply Hn. rewrite <- Hjp. set_solver.
    + constructor.
      * simpl. repeat split; try assumption; [apply elem_of_cons; now left|].
        now apply ltb_true.
      * eapply Forall_impl; [exact Hall|]. simpl. intros jp (? & Hn & ? & ?).
        repeat split; try assumption; [apply elem_of_cons; now right|set_solver].
Qed.

Lemma indices_snoc groups group :
  indices (groups ++ [group]) = indices groups ++ group.*1.
Proof.
  unfold indices. rewrite fmap_app, concat_app. simpl. now rewrite app_nil_r.
Qed.

Lemma groupOuter_inv k groups processed :
  (k < length points)%nat ->
  outer_inv points threshold k groups processed ->
  outer_inv points threshold (S k) (groupOuter points threshold (groups, processed) k).1
                  (groupOuter points threshold (groups, processed) k).2.
Proof.
  intros Hk [Hnd Hpr Hbe Hbo Hse]. unfold groupOuter.
  destruct (decide (k ∈ processed)) as [Hin|Hout].
  { simpl. split; try assumption.
    intros x Hx. destruct (decide (x = k)) as [->|]; [assumption|apply Hbe; lia]. }
  destruct (lookup_lt_is_Some_2 points k Hk) as [pk Hpk]. rewrite Hpk.
  destruct (groupInner_foldl pk (seq (k + 1) (length points - (k + 1)))
              [(k, pk)] (processed ∪ {[k]})) as (added & Hf & Hnda & Hall).
  rewrite Hf. simpl. rewrite Forall_forall in Hall.
  split.
  - rewrite indices_snoc. simpl. apply NoDup_app. split; [exact Hnd|]. split.
    + intros x Hx Hx'. apply Hpr in Hx.
      apply elem_of_cons in Hx' as [->|Hx']; [contradiction|].
      apply list_elem_of_fmap in Hx' as (jp & -> & Hjp).
      apply Hall in Hjp as (_ & Hn & _). set_solver.
    + constructor; [|exact Hnda].
      intros Hx'. apply list_elem_of_fmap in Hx' as (jp & Hjp & Hjpin).
      apply Hall in Hjpin as (_ & Hn & _). set_solver.
  - intros x. rewrite indices_snoc. simpl.
    rewrite elem_of_app, elem_of_cons, Hpr. set_solver.
  - intros x Hx. destruct (decide (x = k)) as [->|]; [set_solver|].
    assert (x ∈ processed) by (apply Hbe; lia). set_solver.
  - intros x Hx. apply elem_of_union in Hx as [Hx|Hx].
    + apply elem_of_union in Hx as [Hx|Hx]; [now apply Hbo|].
      apply elem_of_singleton in Hx. now subst.
    + apply elem_of_list_to_set, list_elem_of_fmap in Hx as (jp & -> & Hjp).
      apply Hall in Hjp as (_ & _ & Hl & _). eapply lookup_lt_Some, Hl.
  - apply Forall_app. split; [exact Hse|]. constructor; [|constructor].
    simpl. split; [exact Hpk|]. apply Forall_forall. intros jp Hjp.
    apply Hall in Hjp as (Hs & _ & Hl & Hd).
    apply elem_of_seq in Hs. repeat split; [lia|assumption..].
Qed.

Lemma groupOuter_foldl m : forall k groups processed,
  (k + m = length points)%nat ->
  outer_inv points threshold k groups processed ->
  outer_inv points threshold (k + m)
    (foldl (groupOuter points threshold) (groups, processed) (seq k m)).1
    (foldl (groupOuter points threshold) (groups, processed) (seq k m)).2.
Proof.
  induction m as [|m IH]; intros k groups processed Hkm Hinv.
  - simpl. now rewrite Nat.add_0_r.
  - cbn [seq foldl].
    pose proof (groupOuter_inv k groups processed ltac:(lia) Hinv) as Hstep.
    destruct (groupOuter points threshold (groups, processed) k) as [groups' processed'].
    replace (k + S m)%nat with (S k + m)%nat by lia.
    apply IH; [lia|exact Hstep].
Qed.

Lemma groupIndexed_inv :
  exists processed, outer_inv points threshold (length points) (groupIndexed points threshold) processed.
Proof.
  unfold groupIndexed.
  pose proof (groupOuter_foldl (length points) 0 [] ∅ eq_refl) as Hinv.
  eexists. apply Hinv. split.
  - constructor.
  - intros x. unfold indices. simpl. set_solver.
  - intros x Hx. lia.
  - intros x Hx. set_solver.
  - constructor.
Qed.

Lemma groupIndexed_indices :
  indices (groupIndexed points threshold) ≡ₚ seq 0 (length points).
Proof.
  destruct groupIndexed_inv as (processed & [Hnd Hpr Hbe Hbo _]).
  apply NoDup_Permutation; [exact Hnd|apply NoDup_seq|].
  intros x. rewrite Hpr, elem_of_seq. split.
  - intros Hx. apply Hbo in Hx. lia.
  - intros Hx. apply Hbe. lia.
Qed.

Lemma groupIndexed_seeded : Forall (seeded points threshold) (groupIndexed points threshold).
Proof. destruct groupIndexed_inv as (processed & []). assumption. Qed.

Lemma seeded_lookup group :
  seeded points threshold group -> Forall (fun ip => points !! ip.1 = Some ip.2) group.
Proof.
  destruct group as [|[i pi] rest]; [intros []|]. intros [Hi Hrest].
  constructor; [exact Hi|]. eapply Forall_impl; [exact Hrest|].
  simpl. intros jp (_ & Hl & _). exact Hl.
Qed.

Lemma groupIndexed_lookup :
  Forall (Forall (fun ip => points !! ip.1 = Some ip.2)) (groupIndexed points threshold).
Proof.
  eapply Forall_impl; [apply groupIndexed_seeded|]. apply seeded_lookup.
Qed.

(** Reading the input at a list of valid indices, and at all of them. *)
Lemma lookup_indices (l : list (nat * GPSPoint.t)) :
  Forall (fun ip => points !! ip.1 = Some ip.2) l ->
  l.*2 = omap (fun i => points !! i) l.*1.
Proof.
  induction 1 as [|[i p] l Hi _ IH]; [reflexivity|].
  simpl in *. rewrite Hi. simpl. now f_equal.
Qed.

Lemma omap_lookup_seq_from (l : list GPSPoint.t) : forall pre,
  omap (fun i => (pre ++ l) !! i) (seq (length pre) (length l)) = l.
Proof.
  induction l as [|x l IH]; intros pre; [reflexivity|].
  cbn [length seq]. simpl. rewrite list_lookup_middle by reflexivity.
  f_equal. specialize (IH (pre ++ [x])).
  rewrite <- app_assoc, length_app, Nat.add_1_r in IH. exact IH.
Qed.

Lemma groupIndexed_points :
  (concat (groupIndexed points threshold)).*2 ≡ₚ points.
Proof.
  rewrite lookup_indices.
  - replace ((concat (groupIndexed points threshold)).*1)
      with (indices (groupIndexed points threshold)).
    + rewrite groupIndexed_indices. apply (reflexive_eq _ _).
      apply (omap_lookup_seq_from points []).
    + unfold indices. generalize (groupIndexed points threshold).
      induction l as [|g l IH]; [reflexivity|].
      rewrite fmap_cons. simpl. rewrite fmap_app. now f_equal.
  - apply Forall_concat, groupIndexed_lookup.
Qed.

Lemma groupPointsByProximity_concat :
  concat (groupPointsByProximity points threshold)
    = (concat (groupIndexed points threshold)).*2.
Proof.
  unfold groupPointsByProximity. generalize (groupIndexed points threshold).
  induction l as [|g l IH]; [reflexivity|].
  rewrite fmap_cons. simpl. rewrite fmap_app. now f_equal.
Qed.

Lemma groupPointsByProximity_nonempty :
  Forall (fun group => group <> []) (groupPointsByProximity points threshold).
Proof.
  unfold groupPointsByProximity. apply Forall_fmap.
  eapply Forall_impl; [apply groupIndexed_seeded|].
  intros [|[i pi] rest]; [intros []|]. simpl. discriminate.
Qed.

(** C6: the groups partition the input.  Read with their indices, the
    points of all groups are the indices of the input, each exactly once;
    every pair of an index and a point is an entry of the input; and so
    the points of the groups are the points of the input, in some order. *)
Theorem groupPointsByProximity_partition :
  concat ((fun group : list (nat * GPSPoint.t) => group.*1)
            <$> groupIndexed points threshold) ≡ₚ seq 0 (length points) /\
  Forall (Forall (fun ip => points !! ip.1 = Some ip.2))
         (groupIndexed points threshold) /\
  concat (groupPointsByProximity points threshold) ≡ₚ points.
Proof.
  split; [apply groupIndexed_indices|]. split; [apply groupIndexed_lookup|].
  rewrite groupPointsByProximity_concat. apply groupIndexed_points.
Qed.

(** C10: the comparison with the threshold is strict.  Every group is a
    seed followed by later points of the input whose distance from the
    seed is below the threshold; a point at a distance equal to the
    threshold is not among them. *)
Theorem groupPointsByProximity_strict
    (i : nat) (pi : GPSPoint.t) (rest : list (nat * GPSPoint.t)) :
  (i, pi) :: rest ∈ groupIndexed points threshold ->
  Forall (fun jp => (i < jp.1)%nat /\ points !! jp.1 = Some jp.2 /\
                    distance pi jp.2 < threshold) rest /\
  forall (j : nat) (pj : GPSPoint.t),
    distance pi pj == threshold -> (j, pj) ∉ rest.
Proof.
  intros Hin. pose proof groupIndexed_seeded as Hall.
  rewrite Forall_forall in Hall. apply Hall in Hin as [_ Hrest].
  split; [exact Hrest|]. intros j pj Heq Hjin.
  rewrite Forall_forall in Hrest. apply Hrest in Hjin as (_ & _ & Hlt).
  simpl in Hlt. rewrite Heq in Hlt. apply (Qlt_irrefl _ Hlt).
Qed.

(** Every group of the result has a seed. *)
Lemma groupIndexed_has_seed group :
  group ∈ groupIndexed points threshold ->
  exists i pi rest, group = (i, pi) :: rest.
Proof.
  intros Hin. pose proof groupIndexed_seeded as Hall.
  rewrite Forall_forall in Hall. apply Hall in Hin.
  destruct group as [|[i pi] rest]; [destruct Hin|]. eauto.
Qed.

End Clustering.

(** ** The [Map] of the daily aggregation *)

Section JsMapFacts.
Context {V : Type}.
Implicit Types (m : JsMap.t V) (k : string).

Lemma JsMap_get_None k m : JsMap.get k m = None <-> k ∉ m.*1.
Proof.
  induction m as [|[k' v] m IH]; simpl.
  - split; [intros _; apply not_elem_of_nil|reflexivity].
  - rewrite not_elem_of_cons. destruct (decide (k' = k)) as [->|Hne].
    + split; [discriminate|]. intros [Hk _]. now destruct Hk.
    + rewrite IH. split; [intros Hk; split; [congruence|exact Hk]|intros [_ Hk]; exact Hk].
Qed.

Lemma JsMap_has_false k m : JsMap.has k m = false <-> k ∉ m.*1.
Proof.
  unfold JsMap.has. rewrite bool_decide_eq_false, <- JsMap_get_None.
  rewrite <- eq_None_not_Some. reflexivity.
Qed.

Lemma JsMap_set_fresh k v m : k ∉ m.*1 -> JsMap.set k v m = m ++ [(k, v)].
Proof.
  induction m as [|[k' v'] m IH]; simpl; [reflexivity|].
  rewrite not_elem_of_cons. intros [Hne Hk].
  destruct (decide (k' = k)); [congruence|]. now rewrite IH.
Qed.

Lemma JsMap_update_fresh k f m : k ∉ m.*1 -> JsMap.update k f m = m.
Proof.
  induction m as [|[k' v'] m IH]; simpl; [reflexivity|].
  rewrite not_elem_of_cons. intros [Hne Hk].
  destruct (decide (k' = k)); [congruence|]. now rewrite IH.
Qed.

Lemma JsMap_update_last k f v m :
  k ∉ m.*1 -> JsMap.update k f (m ++ [(k, v)]) = m ++ [(k, f v)].
Proof.
  induction m as [|[k' v'] m IH]; simpl.
  - intros _. destruct (decide (k = k)); congruence.
  - rewrite not_elem_of_cons. intros [Hne Hk].
    destruct (decide (k' = k)); [congruence|]. now rewrite IH.
Qed.

(** On a map that stores [F d] under each key [d] of a duplicate-free
    list, an update changes the value of its key and nothing else. *)
Lemma JsMap_update_tabulate k f (F : string -> V) (ds : list string) :
  NoDup ds ->
  JsMap.update k f ((fun d => (d, F d)) <$> ds)
    = (fun d => (d, if decide (d = k) then f (F d) else F d)) <$> ds.
Proof.
  induction 1 as [|d ds Hd Hnd IH]; [reflexivity|].
  rewrite !fmap_cons. simpl. destruct (decide (d = k)) as [->|Hne].
  - f_equal. apply list_fmap_ext. intros i d Hi.
    destruct (decide (d = k)) as [->|]; [|reflexivity].
    destruct Hd. eapply list_elem_of_lookup_2, Hi.
  - now rewrite IH.
Qed.

End JsMapFacts.

(** ** Daily aggregation *)

Section Aggregation.
Context `{Host}.
Import DataProcessor.
Local Open Scope Q_scope.

Lemma sum_foldl a xs : foldl Qplus a xs == a + foldr Qplus 0 xs.
Proof.
  revert a. induction xs as [|x xs IH]; intros a; simpl; [ring|].
  rewrite IH. ring.
Qed.

Lemma sum_mean xs : Num.sum xs / len xs == mean xs.
Proof.
  unfold Num.sum, mean, len.
  assert (E : foldl Qplus 0 xs == foldr Qplus 0 xs) by (rewrite sum_foldl; ring).
  rewrite E. reflexivity.
Qed.

Lemma len_nonzero {A} (l : list A) : l <> [] -> ~ len l == 0.
Proof.
  destruct l as [|x l]; [congruence|]. intros _. unfold len. simpl length.
  rewrite Nat2Z.inj_succ. unfold Qeq. simpl. lia.
Qed.

Lemma sameDay_snoc d samples s :
  sameDay d (samples ++ [s]) =
    if decide (d = format_day (GPSPoint.timestamp s))
    then sameDay d samples ++ [s] else sameDay d samples.
Proof.
  unfold sameDay. rewrite filter_app, filter_cons, filter_nil.
  destruct (decide (d = format_day (GPSPoint.timestamp s))) as [->|Hne].
  - destruct (decide (format_day (GPSPoint.timestamp s)
                      = format_day (GPSPoint.timestamp s))); congruence.
  - destruct (decide (format_day (GPSPoint.timestamp s) = d)); [congruence|].
    now rewrite app_nil_r.
Qed.

Lemma sameDay_none d samples :
  d ∉ (fun s => format_day (GPSPoint.timestamp s)) <$> samples ->
  sameDay d samples = [].
Proof.
  intros Hd. unfold sameDay. induction samples as [|s samples IH]; [reflexivity|].
  rewrite fmap_cons, not_elem_of_cons in Hd. destruct Hd as [Hne Hd].
  rewrite filter_cons. destruct (decide (format_day (GPSPoint.timestamp s) = d));
    [congruence|]. now apply IH.
Qed.

Lemma sameDay_some d samples :
  d ∈ (fun s => format_day (GPSPoint.timestamp s)) <$> samples ->
  sameDay d samples <> [].
Proof.
  intros Hd. apply list_elem_of_fmap in Hd as (s & -> & Hs).
  intros Hnil. assert (Hin : s ∈ sameDay (format_day (GPSPoint.timestamp s)) samples).
  { unfold sameDay. apply list_elem_of_filter. split; [reflexivity|exact Hs]. }
  rewrite Hnil in Hin. now apply not_elem_of_nil in Hin.
Qed.

(** The grouping loop: one entry per date seen, in the order the dates
    first appear, holding the samples of that date in input order. *)
Lemma aggregateStep_foldl samples : forall seen dates,
  NoDup dates ->
  (forall d, d ∈ dates <-> d ∈ (fun s => format_day (GPSPoint.timestamp s)) <$> seen) ->
  exists dates',
    foldl aggregateStep ((fun d => (d, sameDay d seen)) <$> dates) samples
      = (fun d => (d, sameDay d (seen ++ samples))) <$> dates' /\
    NoDup dates' /\
    (forall d, d ∈ dates' <->
               d ∈ (fun s => format_day (GPSPoint.timestamp s)) <$> (seen ++ samples)).
Proof.
  induction samples as [|s samples IH]; intros seen dates Hnd Hdates.
  - exists dates. rewrite app_nil_r. auto.
  - cbn [foldl].
    replace (seen ++ s :: samples) with ((seen ++ [s]) ++ samples)
      by now rewrite <- app_assoc.
    set (date := format_day (GPSPoint.timestamp s)).
    assert (Hstep : exists dates1,
      aggregateStep ((fun d => (d, sameDay d seen)) <$> dates) s
        = (fun d => (d, sameDay d (seen ++ [s]))) <$> dates1 /\
      NoDup dates1 /\
      (forall d, d ∈ dates1 <->
         d ∈ (fun s => format_day (GPSPoint.timestamp s)) <$> (seen ++ [s]))).
    { unfold aggregateStep. fold date.
      assert (Hkeys : ((fun d => (d, sameDay d seen)) <$> dates).*1 = dates).
      { rewrite <- list_fmap_compose. apply list_fmap_id. }
      destruct (JsMap.has date _) eqn:Hhas; simpl.
      - assert (Hin : date ∈ dates).
        { destruct (decide (date ∈ dates)) as [|Hout]; [assumption|].
          rewrite <- Hkeys in Hout. apply JsMap_has_false in Hout. congruence. }
        exists dates. split; [|split; [exact Hnd|]].
        + rewrite JsMap_update_tabulate by exact Hnd.
          apply list_fmap_ext. intros i d _. f_equal.
          rewrite sameDay_snoc. fold date. reflexivity.
        + intros d. rewrite fmap_app, elem_of_app, <- Hdates. simpl.
          rewrite list_elem_of_singleton. fold date. split; [auto|].
          intros [Hd| ->]; assumption.
      - apply JsMap_has_false in Hhas. rewrite Hkeys in Hhas.
        exists (dates ++ [date]). split; [|split].
        + rewrite JsMap_set_fresh by now rewrite Hkeys.
          rewrite JsMap_update_last by now rewrite Hkeys.
          rewrite fmap_app. simpl. f_equal.
          * apply list_fmap_ext. intros i d Hi. f_equal.
            rewrite sameDay_snoc. fold date.
            destruct (decide (d = date)) as [->|]; [|reflexivity].
            destruct Hhas. eapply list_elem_of_lookup_2, Hi.
          * rewrite sameDay_snoc. fold date.
            destruct (decide (date = date)); [|congruence].
            rewrite sameDay_none; [reflexivity|]. now rewrite <- Hdates.
        + apply NoDup_app. split; [exact Hnd|]. split; [|apply NoDup_singleton].
          intros d Hd Hd'. apply list_elem_of_singleton in Hd'. congruence.
        + intros d. rewrite fmap_app, !elem_of_app, <- Hdates. simpl.
          rewrite !list_elem_of_singleton. reflexivity. }
    destruct Hstep as (dates1 & -> & Hnd1 & Hdates1).
    apply IH; assumption.
Qed.

Lemma aggregateEntry_some d points :
  points <> [] ->
  aggregateEntry (d, points) =
    Some {| GPSPoint.timestamp := d +:+ "T12:00:00Z";
            GPSPoint.latitude := Num.sum (GPSPoint.latitude <$> points) / len points;
            GPSPoint.longitude := Num.sum (GPSPoint.longitude <$> points) / len points |}.
Proof.
  intros Hne. unfold aggregateEntry.
  rewrite !div_Some by now apply len_nonzero. reflexivity.
Qed.

(** C4: [aggregateByDay] emits one point per distinct calendar date of
    its input; the point carries the arithmetic mean of the latitudes and
    of the longitudes of the samples of that date, and the timestamp of
    that date at 12:00:00Z. *)
Theorem aggregateByDay_one_per_date (samples : list GPSPoint.t) :
  exists (dates : list string) (daily : list GPSPoint.t),
    aggregateByDay samples = Some daily /\
    NoDup dates /\
    (forall d, d ∈ dates <->
       exists s, s ∈ samples /\ format_day (GPSPoint.timestamp s) = d) /\
    Forall2 (fun d point =>
      GPSPoint.timestamp point = d +:+ "T12:00:00Z" /\
      GPSPoint.latitude point == mean (GPSPoint.latitude <$> sameDay d samples) /\
      GPSPoint.longitude point == mean (GPSPoint.longitude <$> sameDay d samples))
      dates daily.
Proof.
  destruct (aggregateStep_foldl samples [] []) as (dates & Hf & Hnd & Hdates).
  { constructor. }
  { intros d. simpl. reflexivity. }
  simpl in Hf, Hdates. exists dates. unfold aggregateByDay, JsMap.entries.
  rewrite Hf.
  assert (Hsome : forall d, d ∈ dates -> sameDay d samples <> []).
  { intros d Hd. apply sameDay_some, Hdates, Hd. }
  assert (Hmap : exists daily,
    mapM aggregateEntry ((fun d => (d, sameDay d samples)) <$> dates) = Some daily /\
    Forall2 (fun d point =>
      GPSPoint.timestamp point = d +:+ "T12:00:00Z" /\
      GPSPoint.latitude point == mean (GPSPoint.latitude <$> sameDay d samples) /\
      GPSPoint.longitude point == mean (GPSPoint.longitude <$> sameDay d samples))
      dates daily).
  { clear Hnd Hdates Hf. induction dates as [|d dates IH].
    - exists []. split; [reflexivity|constructor].
    - assert (Hrest : forall d', d' ∈ dates -> sameDay d' samples <> []).
      { intros d' Hd'. apply Hsome. apply elem_of_cons. now right. }
      destruct (IH Hrest) as (daily & Hm & Hall).
      eexists (_ :: daily). split.
      + rewrite fmap_cons. cbn [mapM]. rewrite aggregateEntry_some.
        * simpl. rewrite Hm. reflexivity.
        * apply Hsome. apply elem_of_cons. now left.
      + constructor; [|exact Hall]. simpl.
        split; [reflexivity|]. rewrite <- !sum_mean.
        unfold len. rewrite !length_fmap. split; reflexivity. }
  destruct Hmap as (daily & Hm & Hall). exists daily.
  split; [exact Hm|]. split; [exact Hnd|]. split; [|exact Hall].
  intros d. rewrite Hdates, list_elem_of_fmap. split.
  - intros (s & -> & Hs). eauto.
  - intros (s & Hs & <-). eauto.
Qed.

End Aggregation.

(** ** The climate resolver *)

Section Resolver.
Context `{Host}.
Import DataProcessor.
Local Open Scope Q_scope.

Lemma or_default_absent d : Num.or_default None d = d.
Proof. reflexivity. Qed.

Lemma or_default_present v d : ~ v == 0 -> Num.or_default (Some v) d = v.
Proof.
  intros Hv. simpl. destruct (Qeq_bool v 0) eqn:E; [|reflexivity].
  apply Qeq_bool_iff in E. contradiction.
Qed.

Lemma or_default_zero v d : v == 0 -> Num.or_default (Some v) d = d.
Proof. intros Hv. simpl. apply Qeq_bool_iff in Hv. now rewrite Hv. Qed.












End Resolver.

(** ** Re-analysis *)

Section Reanalysis.
Context `{Host}.
Import ClimateCalculations.
Local Open Scope Q_scope.





End Reanalysis.

(** ** The properties on the demonstration host *)

Section Examples.
Import DataProcessor ClimateCalculations.
Local Open Scope Q_scope.




(** C2, the code at the failing input: a maximum temperature of 0 and a
    solar radiation of 0 are present in the answer, and the record holds
    the defaults, temperature + 5 and 200; the humidity, present and not
    zero, is taken as it is. *)
Theorem fetchClimateData_zero_is_defaulted :
  exists record w',
    fetchClimateData (H := Demo.host (Demo.answers Demo.frost)) [Demo.noon] App.start
      = Some ([record], w') /\
    at_key (DayData.T2M Demo.frost) "20240115" = Some (-3) /\
    at_key (DayData.T2M_MAX Demo.frost) "20240115" = Some 0 /\
    at_key (DayData.ALLSKY_SFC_SW_DWN Demo.frost) "20240115" = Some 0 /\
    at_key (DayData.RH2M Demo.frost) "20240115" = Some 80 /\
    ClimateData.maxTemperature record == 2 /\
    ClimateData.solarRadiation record == 200 /\
    ClimateData.humidity record == 80.
Proof. do 2 eexists. repeat split; vm_compute; reflexivity. Qed.

(** C5, the amended claim at work. *)
Lemma emc_average_antitone_witness :
  exists e1 e2,
    calculateEMC 25 30 = Some e1 /\ calculateEMC 25 60 = Some e2 /\
    EMC.average e2 <= EMC.average e1.
Proof.
  destruct (emc_average_antitone 25 30 60) as (e1 & e2 & e95 & H1 & H2 & _ & Hle & _).
  exists e1, e2. split; [exact H1|]. split; [exact H2|].
  apply Hle; discriminate.
Defined.

(** C10 at work: the third point is exactly 0.1 from the seed and is
    not in the seed's group, where the second point is. *)
Lemma groupPointsByProximity_strict_witness :
  [(0%nat, Demo.origin0); (1%nat, Demo.near)]
    ∈ groupIndexed (H := Demo.host Demo.down) [Demo.origin0; Demo.near; Demo.edge] 0.1 /\
  distance (H := Demo.host Demo.down) Demo.origin0 Demo.edge == 0.1 /\
  (2%nat, Demo.edge) ∉ [(1%nat, Demo.near)].
Proof.
  assert (Hin : [(0%nat, Demo.origin0); (1%nat, Demo.near)]
    ∈ groupIndexed (H := Demo.host Demo.down) [Demo.origin0; Demo.near; Demo.edge] 0.1).
  { vm_compute. apply elem_of_cons. left. reflexivity. }
  assert (Hd : distance (H := Demo.host Demo.down) Demo.origin0 Demo.edge == 0.1)
    by reflexivity.
  split; [exact Hin|]. split; [exact Hd|].
  exact (proj2 (groupPointsByProximity_strict (H := Demo.host Demo.down)
                  [Demo.origin0; Demo.near; Demo.edge] 0.1 0%nat Demo.origin0
                  [(1%nat, Demo.near)] Hin) 2%nat Demo.edge Hd).
Defined.


End Examples.

(** ** More on the surface physics engine *)

Section PhysicsMore.
Import ClimateCalculations.
Local Open Scope Q_scope.

Lemma sigma_value : sigma == 567 # 10000000000.
Proof. reflexivity. Qed.

Lemma gtb_false x y : Num.gtb x y = false <-> x <= y.
Proof.
  unfold Num.gtb. rewrite Qle_alt. destruct (x ?= y); split; congruence.
Qed.

Lemma gtb_mono x y c : x <= y -> Num.gtb x c = true -> Num.gtb y c = true.
Proof. rewrite !gtb_true. intros. lra. Qed.

(** The surface temperature as the formula gives it, with the constants
    multiplied out. *)
Lemma calculateSurfaceTemperature_value airTemp solarRadiation properties :
  0 < SurfaceProperties.emissivity properties ->
  exists surfaceTemp,
    calculateSurfaceTemperature airTemp solarRadiation properties = Some surfaceTemp /\
    surfaceTemp * (SurfaceProperties.emissivity properties * 567)
      == airTemp * (SurfaceProperties.emissivity properties * 567)
         + 50000000 * (solarRadiation * (1 - SurfaceProperties.albedo properties)).
Proof.
  intros He. eexists. split.
  - apply calculateSurfaceTemperature_total. lra.
  - rewrite sigma_value. field. lra.
Qed.

(** X1: the UV index is clamped to the range from 0 to 11: it is 0 for
    a total irradiance of 0 or less, 11 from a total of 275 on, and a 25th
    of the total in between. *)
Theorem calculateUVIndex_clamped (uva uvb : Q) :
  0 <= DataProcessor.calculateUVIndex uva uvb <= 11 /\
  (uva + uvb <= 0 -> DataProcessor.calculateUVIndex uva uvb == 0) /\
  (275 <= uva + uvb -> DataProcessor.calculateUVIndex uva uvb == 11) /\
  (0 <= uva + uvb <= 275 ->
   DataProcessor.calculateUVIndex uva uvb == (uva + uvb) / 25).
Proof.
  unfold DataProcessor.calculateUVIndex.
  assert (Hd : (uva + uvb) / 25 == (uva + uvb) * (1 # 25)) by (field; lra).
  destruct (Q.max_spec 0 ((uva + uvb) / 25)) as [[H1 E1]|[H1 E1]];
  destruct (Q.min_spec 11 (Qmax 0 ((uva + uvb) / 25))) as [[H2 E2]|[H2 E2]];
    rewrite E2 in *; rewrite ?E1 in *; repeat split; intros; lra.
Qed.

(** X2: a surface with a positive emissivity and an albedo of at most 1
    is never colder than the air under a non-negative solar radiation, and
    more radiation never makes it colder. *)
Theorem calculateSurfaceTemperature_heats
    (airTemp solar1 solar2 : Q) (properties : SurfaceProperties.t) :
  0 < SurfaceProperties.emissivity properties ->
  SurfaceProperties.albedo properties <= 1 ->
  0 <= solar1 -> solar1 <= solar2 ->
  exists t1 t2,
    calculateSurfaceTemperature airTemp solar1 properties = Some t1 /\
    calculateSurfaceTemperature airTemp solar2 properties = Some t2 /\
    airTemp <= t1 /\ t1 <= t2.
Proof.
  intros He Ha H1 H12.
  destruct (calculateSurfaceTemperature_value airTemp solar1 properties He)
    as (t1 & Ht1 & E1).
  destruct (calculateSurfaceTemperature_value airTemp solar2 properties He)
    as (t2 & Ht2 & E2).
  exists t1, t2. split; [exact Ht1|]. split; [exact Ht2|].
  set (e := SurfaceProperties.emissivity properties) in *.
  set (a := SurfaceProperties.albedo properties) in *.
  assert (0 <= solar1 * (1 - a)) by nra.
  assert (solar1 * (1 - a) <= solar2 * (1 - a)) by nra.
  split; nra.
Qed.

Lemma radiation_dominates t a e s :
  0 < e <= 1 -> 1 <= s ->
  t * (e * 567) == a * (e * 567) + 50000000 * s ->
  88100 <= t - a.
Proof.
  intros [He He1] Hs E.
  destruct (Qlt_le_dec (t - a) 88100) as [Hsmall|Hq]; [exfalso|exact Hq].
  assert (0 < (88100 - (t - a)) * e) by (apply Qmult_lt_0_compat; lra).
  nra.
Qed.

(** X3: the radiation term dominates.  For an emissivity in (0, 1], an
    absorbed radiation [solarRadiation * (1 - albedo)] of at least 1 and an
    air temperature not below absolute zero, the surface is more than
    88100 degrees warmer than the air and the cracking risk of the record
    is High. *)
Theorem analyse_cracking_saturates
    (properties : SurfaceProperties.t) (data : ClimateData.t) :
  0 < SurfaceProperties.emissivity properties <= 1 ->
  1 <= ClimateData.solarRadiation data * (1 - SurfaceProperties.albedo properties) ->
  -273.15 <= ClimateData.temperature data ->
  exists result,
    analyse properties data = Some result /\
    ClimateData.temperature data + 88100 <= AnalysisResult.surfaceTemperature result /\
    RiskAssessment.crackingRisk (AnalysisResult.riskAssessment result) = High.
Proof.
  intros [He He1] Habs Ht.
  destruct (calculateSurfaceTemperature_value (ClimateData.temperature data)
              (ClimateData.solarRadiation data) properties He) as (t & Hst & E).
  assert (Hbig : ClimateData.temperature data + 88100 <= t).
  { pose proof (radiation_dominates _ _ _ _ (conj He He1) Habs E). lra. }
  unfold analyse. rewrite Hst, calculateEMC_total. simpl.
  eexists. split; [reflexivity|]. simpl. split; [exact Hbig|].
  assert (G : Num.gtb t 60 = true) by (apply gtb_true; lra).
  rewrite G. reflexivity.
Qed.

Lemma calculateEMC_shape (temperature humidity : Q) :
  exists emc,
    calculateEMC temperature humidity = Some emc /\
    0 < EMC.average emc /\ 0 <= EMC.peak emc /\
    (0 <= humidity -> 1.198 <= EMC.average emc <= 3.3) /\
    (-30 <= temperature ->
     EMC.peak emc == EMC.average emc * (1 + (temperature - 20) * 0.02)) /\
    (temperature <= -30 -> EMC.peak emc == 0).
Proof.
  rewrite calculateEMC_total. eexists. split; [reflexivity|]. simpl.
  set (rh := Qmin humidity 95).
  pose proof (kay_pos rh) as Hpos.
  assert (Eavg : Qmax 0 (kayN rh / kayD rh) == kayN rh / kayD rh)
    by (apply max_0_pos; lra).
  split; [rewrite Eavg; exact Hpos|].
  split; [apply Q.le_max_l|]. split; [|split].
  - intros Hh. rewrite Eavg.
    assert (H0 : 0 <= rh) by (apply Q.min_glb; lra).
    assert (H95 : rh <= 95) by apply Q.le_min_r.
    pose proof (kay_antitone 0 rh ltac:(lra) H0) as Hup.
    pose proof (kay_antitone rh 95 H0 H95) as Hlo.
    assert (E0 : kayN 0 / kayD 0 == 3.3) by reflexivity.
    assert (L95 : 1.198 <= kayN 95 / kayD 95) by (vm_compute; discriminate).
    lra.
  - intros Ht. rewrite Eavg. apply Q.max_r.
    generalize dependent (kayN rh / kayD rh). intros avg Havg _. nra.
  - intros Ht. apply Q.max_l.
    generalize dependent (kayN rh / kayD rh). intros avg Havg _. nra.
Qed.

(** X4: the EMC pair.  The average is positive and the peak is not
    negative; for a humidity of 0 or more the average lies between 1.198
    and 3.3; the peak is the average times [1 + (temperature - 20) * 0.02]
    from a temperature of -30 on, and 0 below. *)
Theorem calculateEMC_bounds (temperature humidity : Q) :
  exists emc,
    calculateEMC temperature humidity = Some emc /\
    0 < EMC.average emc /\ 0 <= EMC.peak emc /\
    (0 <= humidity -> 1.198 <= EMC.average emc <= 3.3) /\
    (-30 <= temperature ->
     EMC.peak emc == EMC.average emc * (1 + (temperature - 20) * 0.02)) /\
    (temperature <= -30 -> EMC.peak emc == 0).
Proof. apply calculateEMC_shape. Qed.

(** The moisture stress in general: High for a variation above 5,
    Medium above 3 and up to 5, Low up to 3. *)
Lemma moistureStress_spec surfaceTemp emcAverage emcPeak cumulativeUV :
  match RiskAssessment.moistureStress
          (assessRisks surfaceTemp emcAverage emcPeak cumulativeUV) with
  | High => 5 < Qabs (emcPeak - emcAverage)
  | Medium => 3 < Qabs (emcPeak - emcAverage) <= 5
  | Low => Qabs (emcPeak - emcAverage) <= 3
  end.
Proof.
  unfold assessRisks. cbn [RiskAssessment.moistureStress].
  generalize (Qabs (emcPeak - emcAverage)). intros v.
  destruct (Num.gtb v 5) eqn:E5.
  - now apply gtb_true.
  - destruct (Num.gtb v 3) eqn:E3.
    + split; [now apply gtb_true|now apply gtb_false].
    + now apply gtb_false.
Qed.

(** X5: between humidity 0 and any upper end, and for an air temperature
    from -25 to 65, the moisture stress computed from the EMC pair is Low
    whatever the other inputs; up to a temperature of 95 it is never
    High. *)
Theorem moistureStress_low_in_range (temperature humidity : Q) :
  0 <= humidity ->
  exists emc,
    calculateEMC temperature humidity = Some emc /\
    forall surfaceTemp cumulativeUV,
      (-25 <= temperature <= 65 ->
       RiskAssessment.moistureStress
         (assessRisks surfaceTemp (EMC.average emc) (EMC.peak emc) cumulativeUV) = Low) /\
      (temperature <= 95 ->
       RiskAssessment.moistureStress
         (assessRisks surfaceTemp (EMC.average emc) (EMC.peak emc) cumulativeUV) <> High).
Proof.
  intros Hh.
  destruct (calculateEMC_shape temperature humidity)
    as (emc & He & Hpos & Hpk & Hrange & Hwarm & Hcold).
  exists emc. split; [exact He|]. intros surfaceTemp cumulativeUV.
  specialize (Hrange Hh).
  pose proof (moistureStress_spec surfaceTemp (EMC.average emc) (EMC.peak emc)
                cumulativeUV) as Hspec.
  set (avg := EMC.average emc) in *. set (pk := EMC.peak emc) in *.
  split.
  - intros [Hlo Hhi]. specialize (Hwarm ltac:(lra)).
    assert (Hv : Qabs (pk - avg) <= 3).
    { apply Qabs_Qle_condition. split; nra. }
    destruct (RiskAssessment.moistureStress _); [reflexivity|lra..].
  - intros Hhi.
    assert (Hv : Qabs (pk - avg) <= 5).
    { apply Qabs_Qle_condition.
      destruct (Qlt_le_dec temperature (-30)) as [Hc|Hw].
      - specialize (Hcold ltac:(lra)). split; lra.
      - specialize (Hwarm Hw). split; nra. }
    destruct (RiskAssessment.moistureStress _); [discriminate..|lra].
Qed.

(** X6: the aging rate never falls when the cumulative UV or the
    surface temperature rises, and it is the plain sum
    [1 + cumulativeUV / 100 + (surfaceTemp - 20) * 0.05] where that is at
    least 1. *)
Theorem agingRate_monotone (t1 t2 uv1 uv2 a1 p1 a2 p2 : Q) :
  t1 <= t2 -> uv1 <= uv2 ->
  RiskAssessment.agingRate (assessRisks t1 a1 p1 uv1)
    <= RiskAssessment.agingRate (assessRisks t2 a2 p2 uv2) /\
  (1 <= 1 + uv1 / 100 + (t1 - 20) * 0.05 ->
   RiskAssessment.agingRate (assessRisks t1 a1 p1 uv1)
     == 1 + uv1 / 100 + (t1 - 20) * 0.05).
Proof.
  intros Ht Hu. unfold assessRisks. simpl. split.
  - apply Q.max_le_compat_l.
    assert (uv1 / 100 <= uv2 / 100).
    { unfold Qdiv. apply Qmult_le_compat_r; [exact Hu|discriminate]. }
    lra.
  - intros H1. now apply Q.max_r.
Qed.

(** X7: a higher surface temperature never lowers the cracking risk. *)
Theorem crackingRisk_monotone (t1 t2 a1 p1 u1 a2 p2 u2 : Q) :
  t1 <= t2 ->
  (rank (RiskAssessment.crackingRisk (assessRisks t1 a1 p1 u1))
   <= rank (RiskAssessment.crackingRisk (assessRisks t2 a2 p2 u2)))%nat.
Proof.
  intros Ht. unfold assessRisks. simpl.
  destruct (Num.gtb t1 60) eqn:E1.
  - rewrite (gtb_mono t1 t2 60 Ht E1). reflexivity.
  - destruct (Num.gtb t1 40) eqn:E2.
    + rewrite (gtb_mono t1 t2 40 Ht E2).
      destruct (Num.gtb t2 60); simpl; lia.
    + simpl. lia.
Qed.





End PhysicsMore.

(** ** More on proximity clustering *)

Section ClusteringMore.
Context `{Host}.
Import DataProcessor.
Local Open Scope Q_scope.

Variable points : list GPSPoint.t.
Variable threshold : Q.

(** The inner loop once more: what it adds is read off the scanned
    indices in their order, and it misses no free point that is near the
    seed. *)
Lemma groupInner_scan pi js : forall group processed,
  exists added,
    foldl (groupInner points threshold pi) (group, processed) js
      = (group ++ added, processed ∪ list_to_set (added.*1)) /\
    added.*1 `sublist_of` js /\
    Forall (fun jp => (jp.1 ∉ processed) /\ points !! jp.1 = Some jp.2) added /\
    (forall j pj, j ∈ js -> j ∉ processed -> points !! j = Some pj ->
                  distance pi pj < threshold -> j ∈ added.*1).
Proof.
  induction js as [|j js IH]; intros group processed.
  - exists []. simpl. rewrite app_nil_r.
    split; [f_equal; now rewrite (right_id_L ∅ (∪))|].
    split; [constructor|]. split; [constructor|].
    intros j pj Hj. now apply elem_of_nil in Hj.
  - cbn [foldl]. unfold groupInner at 2.
    assert (Hskip :
      (j ∈ processed \/ points !! j = None \/
       exists pj, points !! j = Some pj /\ ~ distance pi pj < threshold) ->
      exists added,
      foldl (groupInner points threshold pi) (group, processed) js
        = (group ++ added, processed ∪ list_to_set (added.*1)) /\
      added.*1 `sublist_of` j :: js /\
      Forall (fun jp => (jp.1 ∉ processed) /\ points !! jp.1 = Some jp.2) added /\
      (forall j' pj, j' ∈ j :: js -> j' ∉ processed -> points !! j' = Some pj ->
                     distance pi pj < threshold -> j' ∈ added.*1)).
    { intros Hwhy. destruct (IH group processed) as (added & Hf & Hsub & Hall & Hfull).
      exists added. split; [exact Hf|]. split; [now apply sublist_cons|].
      split; [exact Hall|]. intros j' pj' Hin Hfree Hl Hd.
      apply elem_of_cons in Hin as [->|Hin]; [|eauto].
      destruct Hwhy as [Hp|[Hn|(pj & Hl' & Hfar)]]; [contradiction|congruence|].
      rewrite Hl in Hl'. injection Hl' as <-. contradiction. }
    destruct (decide (j ∈ processed)) as [Hin|Hout]; [apply Hskip; auto|].
    destruct (points !! j) as [pj|] eqn:Hj; [|apply Hskip; auto].
    fold (distance pi pj).
    destruct (Num.ltb (distance pi pj) threshold) eqn:Hlt.
    2:{ apply Hskip. right. right. exists pj. split; [reflexivity|].
        intros Hd. apply ltb_true in Hd. congruence. }
    destruct (IH (group ++ [(j, pj)]) (processed ∪ {[j]}))
      as (added & Hf & Hsub & Hall & Hfull).
    exists ((j, pj) :: added). split; [|split; [|split]].
    + rewrite Hf. f_equal.
      * now rewrite <- app_assoc.
      * rewrite fmap_cons. simpl. set_solver.
    + rewrite fmap_cons. simpl. now apply sublist_skip.
    + constructor; [split; assumption|].
      eapply Forall_impl; [exact Hall|]. simpl. intros jp [Hn Hl].
      split; [set_solver|exact Hl].
    + intros j' pj' Hin Hfree Hl Hd. rewrite fmap_cons. simpl.
      destruct (decide (j' = j)) as [->|Hne]; [apply elem_of_cons; now left|].
      apply elem_of_cons. right.
      apply elem_of_cons in Hin as [->|Hin]; [congruence|].
      eapply Hfull; try eassumption. set_solver.
Qed.

Lemma seeds_snoc groups i pi rest :
  seeds (groups ++ [(i, pi) :: rest]) = seeds groups ++ [i].
Proof. unfold seeds. rewrite omap_app. reflexivity. Qed.

Lemma groupOuter_order k groups processed :
  (k < length points)%nat ->
  outer_inv points threshold k groups processed ->
  outer_order points threshold k groups processed ->
  outer_order points threshold (S k)
    (groupOuter points threshold (groups, processed) k).1
    (groupOuter points threshold (groups, processed) k).2.
Proof.
  intros Hk [_ Hpr Hbe Hbo _] [Hse Hor Hfr Hap]. unfold groupOuter.
  destruct (decide (k ∈ processed)) as [Hin|Hout].
  { simpl. split; try assumption.
    rewrite seq_S. now apply sublist_inserts_r. }
  destruct (lookup_lt_is_Some_2 points k Hk) as [pk Hpk]. rewrite Hpk.
  destruct (groupInner_scan pk (seq (k + 1) (length points - (k + 1)))
              [(k, pk)] (processed ∪ {[k]})) as (added & Hf & Hsub & Hall & Hfull).
  rewrite Hf. simpl. rewrite Forall_forall in Hall.
  assert (Hseedlt : forall i pi rest, (i, pi) :: rest ∈ groups -> (i < k)%nat).
  { intros i pi rest Hg.
    assert (Hi : i ∈ seeds groups).
    { unfold seeds. apply list_elem_of_omap. eexists. split; [exact Hg|reflexivity]. }
    apply (sublist_subseteq _ _ Hse), elem_of_seq in Hi. lia. }
  assert (Hnew : forall j pj, (j, pj) ∈ (k, pk) :: added ->
            (k <= j)%nat /\ (j ∉ processed) /\ points !! j = Some pj).
  { intros j pj Hj. apply elem_of_cons in Hj as [[= -> ->]|Hj]; [auto|].
    destruct (Hall _ Hj) as [Hn Hl]. simpl in *.
    assert (Hjs : j ∈ seq (k + 1) (length points - (k + 1))).
    { apply (sublist_subseteq _ _ Hsub), list_elem_of_fmap.
      exists (j, pj). auto. }
    apply elem_of_seq in Hjs. split; [lia|]. split; [set_solver|exact Hl]. }
  split.
  - rewrite seeds_snoc, seq_S. simpl. now apply sublist_app.
  - apply Forall_app. split; [exact Hor|]. constructor; [|constructor].
    rewrite fmap_cons. simpl.
    replace (length points) with (k + (length points - k))%nat by lia.
    rewrite seq_app. apply sublist_inserts_l. simpl.
    destruct (length points - k)%nat as [|m] eqn:Hm; [lia|].
    simpl. apply sublist_skip.
    replace (S k) with (k + 1)%nat by lia.
    replace m with (length points - (k + 1))%nat by lia. exact Hsub.
  - intros i pi rest j pj Hg Hij Hl Hfree.
    apply elem_of_app in Hg as [Hg|Hg].
    + eapply Hfr; try eassumption. set_solver.
    + apply list_elem_of_singleton in Hg. injection Hg as -> -> _.
      intros Hd. apply Hfree.
      assert (Hj : j ∈ added.*1).
      { eapply Hfull; try eassumption; [|set_solver].
        apply elem_of_seq. apply lookup_lt_Some in Hl. lia. }
      set_solver.
  - intros a b first second Hab Ha Hb.
    destruct (decide (b < length groups)%nat) as [Hb'|Hb'].
    + rewrite lookup_app_l in Ha, Hb by lia. eauto.
    + assert (b = length groups) as ->.
      { apply lookup_lt_Some in Hb. rewrite length_app in Hb. simpl in Hb. lia. }
      rewrite lookup_app_l in Ha by lia.
      rewrite list_lookup_middle in Hb by reflexivity. injection Hb as <-.
      intros i pi rest j pj -> Hj.
      apply list_elem_of_lookup_2 in Ha.
      destruct (Hnew j pj Hj) as (Hkj & Hn & Hl).
      pose proof (Hseedlt i pi rest Ha).
      split; [lia|]. apply (Hfr i pi rest j pj Ha); [lia|exact Hl|exact Hn].
Qed.

Lemma groupOuter_order_foldl m : forall k groups processed,
  (k + m = length points)%nat ->
  outer_inv points threshold k groups processed ->
  outer_order points threshold k groups processed ->
  outer_order points threshold (k + m)
    (foldl (groupOuter points threshold) (groups, processed) (seq k m)).1
    (foldl (groupOuter points threshold) (groups, processed) (seq k m)).2.
Proof.
  induction m as [|m IH]; intros k groups processed Hkm Hinv Hord.
  - simpl. now rewrite Nat.add_0_r.
  - cbn [seq foldl].
    pose proof (groupOuter_inv points threshold k groups processed ltac:(lia) Hinv) as Hstep.
    pose proof (groupOuter_order k groups processed ltac:(lia) Hinv Hord) as Hstep'.
    destruct (groupOuter points threshold (groups, processed) k) as [groups' processed'].
    replace (k + S m)%nat with (S k + m)%nat by lia.
    apply IH; [lia|exact Hstep|exact Hstep'].
Qed.

Lemma groupIndexed_order :
  exists processed,
    outer_order points threshold (length points) (groupIndexed points threshold) processed.
Proof.
  unfold groupIndexed.
  pose proof (groupOuter_order_foldl (length points) 0 [] ∅ eq_refl) as Hord.
  eexists. apply Hord.
  - split.
    + constructor.
    + intros x. unfold indices. simpl. set_solver.
    + intros x Hx. lia.
    + intros x Hx. set_solver.
    + constructor.
  - split.
    + constructor.
    + constructor.
    + intros i pi rest j pj Hg. now apply elem_of_nil in Hg.
    + intros a b first second _ Ha. rewrite lookup_nil in Ha. discriminate.
Qed.

Lemma omap_sublist {A B} (f : A -> option B) (l1 l2 : list A) :
  l1 `sublist_of` l2 -> omap f l1 `sublist_of` omap f l2.
Proof.
  induction 1 as [|x l1 l2 _ IH|x l1 l2 _ IH]; simpl.
  - constructor.
  - destruct (f x); [now apply sublist_skip|exact IH].
  - destruct (f x); [now apply sublist_cons|exact IH].
Qed.

Lemma concat_length_nonempty {A} (ls : list (list A)) :
  Forall (fun l => l <> []) ls -> (length ls <= length (concat ls))%nat.
Proof.
  induction 1 as [|l ls Hl _ IH]; simpl; [lia|].
  rewrite length_app. destruct l; [congruence|]. simpl. lia.
Qed.

(** X10: groups keep away from earlier seeds.  Of two groups of the
    result, every point of the later one comes after the seed of the
    earlier one in the input and is not nearer to that seed than the
    threshold: the inner loop had left no such point free. *)
Theorem groupPointsByProximity_separated
    (a b : nat) (first second : list (nat * GPSPoint.t)) :
  (a < b)%nat ->
  groupIndexed points threshold !! a = Some first ->
  groupIndexed points threshold !! b = Some second ->
  apart threshold first second.
Proof.
  intros Hab Ha Hb. destruct groupIndexed_order as (processed & [_ _ _ Hap]).
  eapply Hap; eassumption.
Qed.

(** X11: the input order is kept.  Every group lists its points in the
    order of the input, the seeds of the groups are in the order of the
    input, and there are no more groups than points. *)
Theorem groupPointsByProximity_in_input_order :
  Forall (fun group => group `sublist_of` points)
         (groupPointsByProximity points threshold) /\
  seeds (groupIndexed points threshold) `sublist_of` seq 0 (length points) /\
  (length (groupPointsByProximity points threshold) <= length points)%nat.
Proof.
  destruct groupIndexed_order as (processed & [Hse Hor _ _]).
  split; [|split].
  - unfold groupPointsByProximity. apply Forall_fmap.
    pose proof (groupIndexed_lookup points threshold) as Hlk.
    rewrite Forall_forall in Hor, Hlk |- *. intros group Hg. simpl.
    rewrite (lookup_indices points group (Hlk group Hg)).
    pose proof (omap_sublist (fun i => points !! i) _ _ (Hor group Hg)) as Hs.
    pose proof (omap_lookup_seq_from points []) as E. simpl in E.
    rewrite E in Hs. exact Hs.
  - exact Hse.
  - pose proof (concat_length_nonempty _ (groupPointsByProximity_nonempty points threshold)) as Hlen.
    pose proof (groupIndexed_points points threshold) as Hperm.
    rewrite <- groupPointsByProximity_concat in Hperm.
    apply Permutation_length in Hperm. lia.
Qed.

End ClusteringMore.

(** ** More on the daily aggregation *)

Section AggregationMore.
Context `{Host}.
Import DataProcessor.
Local Open Scope Q_scope.

Lemma JsMap_update_keys {V} k (f : V -> V) (m : JsMap.t V) :
  (JsMap.update k f m).*1 = m.*1.
Proof.
  induction m as [|[k' v] m IH]; [reflexivity|]. simpl.
  destruct (decide (k' = k)); rewrite !fmap_cons; simpl; [reflexivity|].
  now rewrite IH.
Qed.

Lemma JsMap_update_nonempty k (x : GPSPoint.t) (m : JsMap.t (list GPSPoint.t)) :
  Forall (fun entry => entry.2 <> []) m ->
  Forall (fun entry => entry.2 <> [])
         (JsMap.update k (fun points => points ++ [x]) m).
Proof.
  induction 1 as [|[k' v] m Hv Hm IH]; [constructor|]. simpl.
  destruct (decide (k' = k)); constructor; simpl; try assumption.
  intros Hn. now apply app_eq_nil in Hn as [_ ?].
Qed.

Lemma aggregateStep_keys m s :
  (aggregateStep m s).*1 =
    if decide (format_day (GPSPoint.timestamp s) ∈ m.*1) then m.*1
    else m.*1 ++ [format_day (GPSPoint.timestamp s)].
Proof.
  unfold aggregateStep. set (date := format_day (GPSPoint.timestamp s)).
  destruct (JsMap.has date m) eqn:Hhas; simpl.
  - rewrite JsMap_update_keys. destruct (decide (date ∈ m.*1)) as [|Hout];
      [reflexivity|]. apply JsMap_has_false in Hout. congruence.
  - apply JsMap_has_false in Hhas.
    rewrite JsMap_set_fresh, JsMap_update_last by exact Hhas.
    rewrite fmap_app. simpl. destruct (decide (date ∈ m.*1)); [contradiction|reflexivity].
Qed.

Lemma aggregateStep_nonempty m s :
  Forall (fun entry => entry.2 <> []) m ->
  Forall (fun entry => entry.2 <> []) (aggregateStep m s).
Proof.
  intros Hm. unfold aggregateStep. set (date := format_day (GPSPoint.timestamp s)).
  destruct (JsMap.has date m) eqn:Hhas; simpl.
  - now apply JsMap_update_nonempty.
  - apply JsMap_has_false in Hhas.
    rewrite JsMap_set_fresh, JsMap_update_last by exact Hhas.
    apply Forall_app. split; [exact Hm|]. constructor; [discriminate|constructor].
Qed.

Lemma aggregateStep_members lo hi latLo latHi m s :
  Forall (fun entry => Forall (fun p : GPSPoint.t =>
            latLo <= GPSPoint.latitude p <= latHi /\
            lo <= GPSPoint.longitude p <= hi) entry.2) m ->
  latLo <= GPSPoint.latitude s <= latHi /\ lo <= GPSPoint.longitude s <= hi ->
  Forall (fun entry => Forall (fun p : GPSPoint.t =>
            latLo <= GPSPoint.latitude p <= latHi /\
            lo <= GPSPoint.longitude p <= hi) entry.2) (aggregateStep m s).
Proof.
  intros Hm Hs. unfold aggregateStep. set (date := format_day (GPSPoint.timestamp s)).
  assert (Hup : forall m' : JsMap.t (list GPSPoint.t),
    Forall (fun entry => Forall (fun p : GPSPoint.t =>
            latLo <= GPSPoint.latitude p <= latHi /\
            lo <= GPSPoint.longitude p <= hi) entry.2) m' ->
    Forall (fun entry => Forall (fun p : GPSPoint.t =>
            latLo <= GPSPoint.latitude p <= latHi /\
            lo <= GPSPoint.longitude p <= hi) entry.2)
      (JsMap.update date (fun points => points ++ [s]) m')).
  { induction 1 as [|[k' v] m' Hv Hm' IH]; [constructor|]. simpl.
    destruct (decide (k' = date)); constructor; simpl; try assumption.
    apply Forall_app. split; [exact Hv|]. constructor; [exact Hs|constructor]. }
  destruct (JsMap.has date m) eqn:Hhas; simpl; apply Hup; [exact Hm|].
  apply JsMap_has_false in Hhas. rewrite JsMap_set_fresh by exact Hhas.
  apply Forall_app. split; [exact Hm|]. constructor; constructor.
Qed.

Lemma aggregateStep_foldl_keys samples : forall m,
  (foldl aggregateStep m samples).*1 =
    foldl (fun seen d => if decide (d ∈ seen) then seen else seen ++ [d])
          (m.*1) ((fun s => format_day (GPSPoint.timestamp s)) <$> samples).
Proof.
  induction samples as [|s samples IH]; intros m; [reflexivity|].
  cbn [foldl]. rewrite IH, aggregateStep_keys, fmap_cons. cbn [foldl].
  reflexivity.
Qed.

Lemma len_fmap {A B} (f : A -> B) (l : list A) : len (f <$> l) = len l.
Proof. unfold len. now rewrite length_fmap. Qed.

(** A sum of numbers between two bounds lies between the bounds times
    the count, and so does their mean between the bounds. *)
Lemma sum_between lo hi xs :
  Forall (fun x => lo <= x <= hi) xs ->
  lo * len xs <= Num.sum xs <= hi * len xs.
Proof.
  unfold Num.sum, len. intros Hall.
  assert (E : foldl Qplus 0 xs == foldr Qplus 0 xs) by (rewrite sum_foldl; ring).
  rewrite E. clear E.
  induction Hall as [|x xs Hx _ IH].
  - simpl. split; apply Qle_lteq; right; ring.
  - cbn [length foldr]. rewrite Nat2Z.inj_succ, <- Z.add_1_r, inject_Z_plus.
    change (inject_Z 1) with 1. nra.
Qed.

Lemma mean_between lo hi xs :
  xs <> [] ->
  Forall (fun x => lo <= x <= hi) xs ->
  lo <= Num.sum xs / len xs <= hi.
Proof.
  intros Hne Hall. pose proof (sum_between lo hi xs Hall) as [Hl Hh].
  assert (Hn : 0 < len xs).
  { unfold len. destruct xs; [congruence|]. simpl length.
    rewrite Nat2Z.inj_succ. unfold Qlt. simpl. lia. }
  split.
  - apply Qle_shift_div_l; assumption.
  - apply Qle_shift_div_r; assumption.
Qed.

Lemma aggregateEntry_mapM (m : JsMap.t (list GPSPoint.t)) :
  Forall (fun entry => entry.2 <> []) m ->
  exists daily,
    mapM aggregateEntry m = Some daily /\
    Forall2 (fun entry point =>
      point = {| GPSPoint.timestamp := entry.1 +:+ "T12:00:00Z";
                 GPSPoint.latitude :=
                   Num.sum (GPSPoint.latitude <$> entry.2) / len entry.2;
                 GPSPoint.longitude :=
                   Num.sum (GPSPoint.longitude <$> entry.2) / len entry.2 |})
      m daily.
Proof.
  induction 1 as [|[d points] m Hp _ (daily & Hm & Hall)].
  - exists []. split; [reflexivity|constructor].
  - eexists (_ :: daily). split.
    + cbn [mapM]. rewrite aggregateEntry_some by exact Hp. simpl. rewrite Hm. reflexivity.
    + constructor; [reflexivity|exact Hall].
Qed.

(** X12: [aggregateByDay] lists the days in the order in which they
    first appear in the input, and returns no more points than it was
    given. *)
Theorem aggregateByDay_first_seen (samples : list GPSPoint.t) :
  exists daily,
    aggregateByDay samples = Some daily /\
    GPSPoint.timestamp <$> daily =
      (fun d => d +:+ "T12:00:00Z")
        <$> firstSeen ((fun s => format_day (GPSPoint.timestamp s)) <$> samples) /\
    (length daily <= length samples)%nat.
Proof.
  unfold aggregateByDay, JsMap.entries.
  assert (Hne : Forall (fun entry => entry.2 <> []) (foldl aggregateStep [] samples)).
  { assert (G : forall m, Forall (fun entry : string * list GPSPoint.t => entry.2 <> []) m ->
                Forall (fun entry => entry.2 <> []) (foldl aggregateStep m samples)).
    { induction samples as [|s samples IH]; intros m Hm; [exact Hm|].
      cbn [foldl]. apply IH, aggregateStep_nonempty, Hm. }
    apply G. constructor. }
  destruct (aggregateEntry_mapM _ Hne) as (daily & Hm & Hall).
  exists daily. split; [exact Hm|].
  pose proof (aggregateStep_foldl_keys samples []) as Hkeys. simpl in Hkeys.
  fold (firstSeen ((fun s => format_day (GPSPoint.timestamp s)) <$> samples)) in Hkeys.
  assert (Hts : GPSPoint.timestamp <$> daily =
                (fun d => d +:+ "T12:00:00Z") <$> (foldl aggregateStep [] samples).*1).
  { clear Hm Hkeys Hne. induction Hall as [|entry point m daily -> _ IH]; [reflexivity|].
    rewrite !fmap_cons, IH. reflexivity. }
  split; [now rewrite Hts, Hkeys|].
  assert (Hlen : length daily = length (firstSeen
            ((fun s => format_day (GPSPoint.timestamp s)) <$> samples))).
  { rewrite <- Hkeys, length_fmap. symmetry. eapply Forall2_length, Hall. }
  rewrite Hlen. unfold firstSeen.
  assert (G : forall (l seen : list string),
    (length (foldl (fun seen d => if decide (d ∈ seen) then seen else seen ++ [d]) seen l)
     <= length seen + length l)%nat).
  { induction l as [|d l IH]; intros seen; simpl; [lia|].
    destruct (decide (d ∈ seen)).
    - specialize (IH seen). lia.
    - specialize (IH (seen ++ [d])). rewrite length_app in IH. simpl in IH. lia. }
  specialize (G ((fun s => format_day (GPSPoint.timestamp s)) <$> samples) []).
  now rewrite length_fmap in G.
Qed.

(** X13: a daily point lies within the bounds of the samples: when
    every sample has its latitude and its longitude between given bounds,
    so has every point [aggregateByDay] returns. *)
Theorem aggregateByDay_within_bounds
    (samples : list GPSPoint.t) (latLo latHi lngLo lngHi : Q) :
  Forall (fun s => latLo <= GPSPoint.latitude s <= latHi /\
                   lngLo <= GPSPoint.longitude s <= lngHi) samples ->
  exists daily,
    aggregateByDay samples = Some daily /\
    Forall (fun point => latLo <= GPSPoint.latitude point <= latHi /\
                         lngLo <= GPSPoint.longitude point <= lngHi) daily.
Proof.
  intros Hs. unfold aggregateByDay, JsMap.entries.
  assert (G : forall m,
    Forall (fun entry : string * list GPSPoint.t => entry.2 <> []) m ->
    Forall (fun entry => Forall (fun p : GPSPoint.t =>
              latLo <= GPSPoint.latitude p <= latHi /\
              lngLo <= GPSPoint.longitude p <= lngHi) entry.2) m ->
    Forall (fun entry => entry.2 <> []) (foldl aggregateStep m samples) /\
    Forall (fun entry => Forall (fun p : GPSPoint.t =>
              latLo <= GPSPoint.latitude p <= latHi /\
              lngLo <= GPSPoint.longitude p <= lngHi) entry.2)
           (foldl aggregateStep m samples)).
  { induction Hs as [|s samples Hs0 _ IH]; intros m Hne Hin; [auto|].
    cbn [foldl]. apply IH.
    - now apply aggregateStep_nonempty.
    - now apply aggregateStep_members. }
  destruct (G [] ltac:(constructor) ltac:(constructor)) as [Hne Hin].
  destruct (aggregateEntry_mapM _ Hne) as (daily & Hm & Hall).
  exists daily. split; [exact Hm|].
  clear Hm G. induction Hall as [|entry point m daily -> _ IH]; [constructor|].
  apply Forall_cons in Hne as [Hne0 Hne]. apply Forall_cons in Hin as [Hin0 Hin].
  constructor; [|now apply IH]. simpl.
  split.
  - rewrite <- (len_fmap GPSPoint.latitude). apply mean_between.
    + intros Hn. apply fmap_nil_inv in Hn. contradiction.
    + apply Forall_fmap. eapply Forall_impl; [exact Hin0|]. simpl. tauto.
  - rewrite <- (len_fmap GPSPoint.longitude). apply mean_between.
    + intros Hn. apply fmap_nil_inv in Hn. contradiction.
    + apply Forall_fmap. eapply Forall_impl; [exact Hin0|]. simpl. tauto.
Qed.

End AggregationMore.

(** ** More on the climate resolver *)

Section ResolverMore.
Context `{Host}.
Import DataProcessor.
Local Open Scope Q_scope.

Lemma requests_app t1 t2 : requests (t1 ++ t2) = requests t1 ++ requests t2.
Proof. unfold requests. apply omap_app. Qed.

Lemma foldl_min_max x xs : foldl Qmin x xs <= x /\ x <= foldl Qmax x xs.
Proof.
  revert x. induction xs as [|y ys IH]; intros x; simpl.
  - split; apply Qle_refl.
  - destruct (IH (Qmin x y)) as [Hlo _]. destruct (IH (Qmax x y)) as [_ Hhi].
    pose proof (Q.le_min_l x y). pose proof (Q.le_max_l x y).
    split; eapply Qle_trans; eassumption.
Qed.

Lemma callNASAPowerAPI_answer latitude longitude startDate endDate w :
  let url := {| Query.parameters := parameterNames;
                Query.community := "RE";
                Query.longitude := longitude;
                Query.latitude := latitude;
                Query.start := startDate;
                Query.end_ := endDate |} in
  let w' := {| World.trace := World.trace w ++ [Request url];
               World.draws := World.draws w |} in
  exists apiData,
    callNASAPowerAPI latitude longitude startDate endDate w = Some (apiData, w') /\
    match apiData with
    | inl data =>
        answer (fetch (length (World.trace w)) url)
          = Body.properties data ≫= Properties.parameter /\
        is_Some (Body.properties data ≫= Properties.parameter)
    | inr _ => answer (fetch (length (World.trace w)) url) = None
    end.
Proof.
  intros url w'. unfold callNASAPowerAPI. fold url. fold w'.
  destruct (fetch _ url) as [|[|] [data|]] eqn:Hfetch; simpl;
    try (eexists; split; [reflexivity|]; reflexivity).
  destruct (Body.properties data ≫= Properties.parameter) eqn:Hd;
    eexists; (split; [reflexivity|]); simpl; rewrite ?Hd; eauto.
Qed.

Section Records.
(** A property of the records made from an answer, and one of the mock
    records. *)
Variables Pmap Pmock : ClimateData.t -> Prop.
Hypothesis HPmap : forall dayData results point,
  exists new, mapPoint dayData results point = results ++ new /\ Forall Pmap new.
Hypothesis HPmock : forall point w mock w',
  generateMockClimateData point w = Some (mock, w') -> Pmock mock.

Lemma mapPoint_foldl_records dayData group : forall results,
  exists new,
    foldl (mapPoint dayData) results group = results ++ new /\ Forall Pmap new.
Proof.
  induction group as [|point group IH]; intros results.
  - exists []. rewrite app_nil_r. split; [reflexivity|constructor].
  - cbn [foldl]. destruct (HPmap dayData results point) as (new1 & -> & H1).
    destruct (IH (results ++ new1)) as (new2 & -> & H2).
    exists (new1 ++ new2). rewrite app_assoc. split; [reflexivity|].
    now apply Forall_app.
Qed.

Lemma mockPoint_forM_records group : forall results w,
  exists mocks w',
    forM mockPoint results group w = Some (results ++ mocks, w') /\
    origin <$> mocks = footprint <$> group /\
    World.trace w' = World.trace w /\
    World.draws w' = (World.draws w + 5 * length group)%nat /\
    Forall Pmock mocks.
Proof.
  induction group as [|point group IH]; intros results w.
  - exists [], w. rewrite app_nil_r. repeat split; simpl; try lia. constructor.
  - destruct (generateMockClimateData point w) as [[mock w1]|] eqn:Hm;
      [|vm_compute in Hm; discriminate].
    assert (Hw1 : origin mock = footprint point /\
                  World.trace w1 = World.trace w /\
                  World.draws w1 = (World.draws w + 5)%nat).
    { unfold generateMockClimateData, random, mbind, M_bind, mret, M_ret in Hm.
      simpl in Hm. injection Hm as <- <-. simpl. repeat split. lia. }
    destruct Hw1 as (Ho & Ht & Hd).
    destruct (IH (results ++ [mock]) w1) as (mocks & w' & Hf & Hos & Hts & Hds & Hall).
    exists (mock :: mocks), w'. split; [|split; [|split; [|split]]].
    + cbn [forM]. unfold mbind, M_bind, mockPoint at 1. unfold mbind, M_bind.
      rewrite Hm. unfold mret, M_ret. rewrite Hf. now rewrite <- app_assoc.
    + rewrite !fmap_cons. congruence.
    + congruence.
    + simpl length. lia.
    + constructor; [eapply HPmock; exact Hm|exact Hall].
Qed.

(** One round of the loop over the groups, with what it leaves in the
    world. *)
Lemma fetchGroup_world results group w :
  group <> [] ->
  exists new w' q,
    fetchGroup results group w = Some (results ++ new, w') /\
    requestFor group q /\
    Forall (fun r => Pmap r \/ Pmock r) new /\
    match answer (fetch (length (World.trace w)) q) with
    | Some dayData =>
        World.trace w' = World.trace w ++ [Request q; Delay 100] /\
        World.draws w' = World.draws w /\
        foldl (mapPoint dayData) results group = results ++ new /\
        Forall Pmap new
    | None =>
        World.trace w' = World.trace w ++ [Request q] /\
        World.draws w' = (World.draws w + 5 * length group)%nat /\
        origin <$> new = footprint <$> group /\
        Forall Pmock new
    end.
Proof.
  intros Hne. unfold fetchGroup.
  destruct (calculateCenterPoint group) as [[lat lng]|] eqn:Hc.
  2:{ unfold calculateCenterPoint in Hc.
      rewrite !div_Some in Hc by now apply len_nonzero. discriminate. }
  destruct group as [|point group]; [congruence|].
  set (dates := parseInt <$> ((fun p => format_key (GPSPoint.timestamp p))
                                <$> point :: group)) in *.
  destruct (Math_min dates) as [lo|] eqn:Hlo; [|discriminate].
  destruct (Math_max dates) as [hi|] eqn:Hhi; [|discriminate].
  assert (Hlh : lo <= hi).
  { subst dates. rewrite !fmap_cons in Hlo, Hhi. simpl in Hlo, Hhi.
    injection Hlo as <-. injection Hhi as <-.
    eapply Qle_trans; [apply (proj1 (foldl_min_max _ _))|apply (proj2 (foldl_min_max _ _))]. }
  cbv beta iota zeta delta [lift mbind M_bind].
  destruct (callNASAPowerAPI_answer lat lng (toString lo) (toString hi) w)
    as (apiData & Hcall & Hans).
  cbv zeta in Hcall, Hans. rewrite Hcall.
  set (q := {| Query.parameters := parameterNames; Query.community := "RE";
               Query.longitude := lng; Query.latitude := lat;
               Query.start := toString lo; Query.end_ := toString hi |}) in *.
  assert (Hreq : requestFor (point :: group) q).
  { exists lo, hi. repeat split; assumption. }
  assert (Hmock : answer (fetch (length (World.trace w)) q) = None ->
    exists new w' q0,
      forM mockPoint results (point :: group)
        {| World.trace := World.trace w ++ [Request q]; World.draws := World.draws w |}
        = Some (results ++ new, w') /\
      requestFor (point :: group) q0 /\
      Forall (fun r => Pmap r \/ Pmock r) new /\
      match answer (fetch (length (World.trace w)) q0) with
      | Some dayData =>
          World.trace w' = World.trace w ++ [Request q0; Delay 100] /\
          World.draws w' = World.draws w /\
          foldl (mapPoint dayData) results (point :: group) = results ++ new /\
          Forall Pmap new
      | None =>
          World.trace w' = World.trace w ++ [Request q0] /\
          World.draws w' = (World.draws w + 5 * length (point :: group))%nat /\
          origin <$> new = footprint <$> point :: group /\
          Forall Pmock new
      end).
  { intros Hnone.
    destruct (mockPoint_forM_records (point :: group) results
                {| World.trace := World.trace w ++ [Request q];
                   World.draws := World.draws w |})
      as (mocks & w' & Hf & Ho & Ht & Hd & Hall).
    exists mocks, w', q. split; [exact Hf|]. split; [exact Hreq|].
    split; [eapply Forall_impl; [exact Hall|]; auto|].
    rewrite Hnone. simpl in Ht, Hd. auto. }
  destruct apiData as [data|[]]; [|apply Hmock, Hans].
  destruct Hans as [Hans [dayData Hday]].
  change (option_bind _ _ Properties.parameter (Body.properties data))
    with (Body.properties data ≫= Properties.parameter).
  rewrite Hday in Hans |- *.
  destruct (mapPoint_foldl_records dayData (point :: group) results)
    as (new & Hf & Hall).
  exists new. eexists. exists q. unfold emit, mret, M_ret. rewrite Hf.
  split; [reflexivity|]. split; [exact Hreq|].
  split; [eapply Forall_impl; [exact Hall|]; auto|].
  rewrite Hans. simpl. rewrite <- app_assoc. auto.
Qed.

Lemma fetchGroup_forM_world groups : forall results w,
  Forall (fun group => group <> []) groups ->
  exists new w' qs,
    forM fetchGroup results groups w = Some (results ++ new, w') /\
    requests (World.trace w') = requests (World.trace w) ++ qs /\
    Forall2 requestFor groups qs /\
    Forall (fun r => Pmap r \/ Pmock r) new /\
    ((forall n q, answer (fetch n q) = None) ->
     World.trace w' = World.trace w ++ (Request <$> qs) /\
     World.draws w' = (World.draws w + 5 * length (concat groups))%nat /\
     origin <$> new = footprint <$> concat groups /\
     Forall Pmock new).
Proof.
  induction groups as [|group groups IH]; intros results w Hne.
  - exists [], w, []. rewrite !app_nil_r. split; [reflexivity|].
    split; [reflexivity|]. split; [constructor|]. split; [constructor|].
    intros _. simpl. repeat split; [lia|constructor].
  - apply Forall_cons in Hne as [Hg Hne].
    destruct (fetchGroup_world results group w Hg) as (new1 & w1 & q & Hf1 & Hq & Hp1 & Hw1).
    destruct (IH (results ++ new1) w1 Hne) as (new2 & w2 & qs & Hf2 & Hr2 & Hqs & Hp2 & Hd2).
    exists (new1 ++ new2), w2, (q :: qs). split; [|split; [|split; [|split]]].
    + cbn [forM]. unfold mbind, M_bind. rewrite Hf1, Hf2. now rewrite <- app_assoc.
    + rewrite Hr2.
      assert (Hr1 : requests (World.trace w1) = requests (World.trace w) ++ [q]).
      { destruct (answer _); destruct Hw1 as (-> & _); now rewrite requests_app. }
      rewrite Hr1, <- app_assoc. reflexivity.
    + now constructor.
    + now apply Forall_app.
    + intros Hdown. rewrite (Hdown _ q) in Hw1.
      destruct Hw1 as (Ht1 & Hd1 & Ho1 & Hm1).
      destruct (Hd2 Hdown) as (Ht2 & Hdr2 & Ho2 & Hm2).
      split; [|split; [|split]].
      * rewrite Ht2, Ht1, fmap_cons, <- app_assoc. reflexivity.
      * rewrite Hdr2, Hd1. simpl. rewrite length_app. lia.
      * simpl. rewrite !fmap_app. congruence.
      * now apply Forall_app.
Qed.

Lemma fetchClimateData_world gpsPoints w :
  exists results w' qs,
    fetchClimateData gpsPoints w = Some (results, w') /\
    requests (World.trace w') = requests (World.trace w) ++ qs /\
    Forall2 requestFor (groupPointsByProximity gpsPoints 0.1) qs /\
    Forall (fun r => Pmap r \/ Pmock r) results /\
    ((forall n q, answer (fetch n q) = None) ->
     World.trace w' = World.trace w ++ (Request <$> qs) /\
     World.draws w' = (World.draws w + 5 * length gpsPoints)%nat /\
     origin <$> results = footprint <$> concat (groupPointsByProximity gpsPoints 0.1) /\
     Forall Pmock results).
Proof.
  unfold fetchClimateData.
  destruct (fetchGroup_forM_world (groupPointsByProximity gpsPoints 0.1) [] w)
    as (results & w' & qs & Hf & Hr & Hqs & Hp & Hd).
  { apply groupPointsByProximity_nonempty. }
  exists results, w', qs. simpl in Hf. split; [exact Hf|]. split; [exact Hr|].
  split; [exact Hqs|]. split; [exact Hp|]. intros Hdown.
  destruct (Hd Hdown) as (Ht & Hdr & Ho & Hm).
  split; [exact Ht|]. split; [|split; assumption].
  rewrite Hdr. f_equal. f_equal.
  rewrite groupPointsByProximity_concat.
  apply Permutation_length, groupIndexed_points.
Qed.

End Records.

Lemma mapPoint_any dayData results point :
  exists new, mapPoint dayData results point = results ++ new /\
              Forall (fun _ => True) new.
Proof.
  unfold mapPoint. destruct (at_key _ _).
  - eexists. split; [reflexivity|]. repeat constructor.
  - exists []. rewrite app_nil_r. split; [reflexivity|constructor].
Qed.

Lemma mapPoint_uvIndex dayData results point :
  exists new, mapPoint dayData results point = results ++ new /\
              Forall (fun r => 0 <= ClimateData.uvIndex r <= 11) new.
Proof.
  unfold mapPoint. destruct (at_key _ _).
  - eexists. split; [reflexivity|]. constructor; [|constructor]. simpl.
    unfold calculateUVIndex.
    split; [apply Q.min_glb; [discriminate|apply Q.le_max_l]|apply Q.le_min_l].
  - exists []. rewrite app_nil_r. split; [reflexivity|constructor].
Qed.

Lemma generateMockClimateData_synthetic point w mock w' :
  (forall n, 0 <= Math_random n < 1) ->
  generateMockClimateData point w = Some (mock, w') -> synthetic mock.
Proof.
  intros Hr Hm.
  unfold generateMockClimateData, random, mbind, M_bind, mret, M_ret in Hm.
  simpl in Hm. injection Hm as <- _. unfold synthetic. simpl.
  pose proof (Hr (World.draws w)). pose proof (Hr (S (World.draws w))).
  pose proof (Hr (S (S (World.draws w)))).
  pose proof (Hr (S (S (S (World.draws w))))).
  pose proof (Hr (S (S (S (S (World.draws w)))))).
  repeat split; lra.
Qed.


(** X15: with the provider down, that is when [callNASAPowerAPI]
    throws on every answer, every point gets exactly one record, in the
    order of the groups, with the point's own date and coordinates; the
    trace grows by the requests alone, no delay is waited for, and five
    random numbers are drawn per point. *)
Theorem fetchClimateData_provider_down
    (gpsPoints : list GPSPoint.t) (w : World.t) :
  (forall n q, answer (fetch n q) = None) ->
  exists results w' qs,
    fetchClimateData gpsPoints w = Some (results, w') /\
    origin <$> results = footprint <$> concat (groupPointsByProximity gpsPoints 0.1) /\
    length results = length gpsPoints /\
    World.trace w' = World.trace w ++ (Request <$> qs) /\
    World.draws w' = (World.draws w + 5 * length gpsPoints)%nat.
Proof.
  intros Hdown.
  destruct (fetchClimateData_world (fun _ => True) (fun _ => True)
              mapPoint_any (fun _ _ _ _ _ => I) gpsPoints w) as (results & w' & qs & Hf & _ & _ & _ & Hd).
  destruct (Hd Hdown) as (Ht & Hdr & Ho & _).
  exists results, w', qs. split; [exact Hf|]. split; [exact Ho|].
  split; [|split; assumption].
  apply (f_equal length) in Ho. rewrite !length_fmap in Ho. rewrite Ho.
  rewrite groupPointsByProximity_concat.
  apply Permutation_length, groupIndexed_points.
Qed.

(** X16: with random numbers in [0, 1) and the provider down, every
    record is within the ranges of the mock data: the temperature from 20
    to 45, the maximum temperature from 25 to 55, the solar radiation from
    100 to 500, the humidity from 30 to 80 and the UV index from 1 to
    11. *)
Theorem fetchClimateData_synthetic
    (gpsPoints : list GPSPoint.t) (w : World.t) :
  (forall n, 0 <= Math_random n < 1) ->
  (forall n q, answer (fetch n q) = None) ->
  exists results w',
    fetchClimateData gpsPoints w = Some (results, w') /\
    Forall synthetic results.
Proof.
  intros Hrand Hdown.
  destruct (fetchClimateData_world (fun _ => True) synthetic mapPoint_any
              (fun point w0 mock w1 => generateMockClimateData_synthetic point w0 mock w1 Hrand)
              gpsPoints w) as (results & w' & qs & Hf & _ & _ & _ & Hd).
  destruct (Hd Hdown) as (_ & _ & _ & Hall).
  exists results, w'. split; assumption.
Qed.

(** X17: with random numbers in [0, 1), every record
    [fetchClimateData] returns, from the provider or mock, has a UV index
    from 0 to 11. *)
Theorem fetchClimateData_uvIndex
    (gpsPoints : list GPSPoint.t) (w : World.t) :
  (forall n, 0 <= Math_random n < 1) ->
  exists results w',
    fetchClimateData gpsPoints w = Some (results, w') /\
    Forall (fun r => 0 <= ClimateData.uvIndex r <= 11) results.
Proof.
  intros Hrand.
  destruct (fetchClimateData_world (fun r => 0 <= ClimateData.uvIndex r <= 11)
              synthetic mapPoint_uvIndex
              (fun point w0 mock w1 => generateMockClimateData_synthetic point w0 mock w1 Hrand)
              gpsPoints w) as (results & w' & qs & Hf & _ & _ & Hp & _).
  exists results, w'. split; [exact Hf|].
  eapply Forall_impl; [exact Hp|]. simpl.
  intros r [Hr|(_ & _ & _ & _ & Hr)]; [exact Hr|]. lra.
Qed.

End ResolverMore.

(** ** The session and the configuration panel *)

Section Session.
Context `{Host}.
Import ClimateCalculations.
Local Open Scope Q_scope.










End Session.

(** ** Ingestion *)

Section IngestionFacts.
Import Ingestion.
Local Open Scope Q_scope.
Variable parseFloat : string -> option Q.

Lemma filter_map_app {A B} (f : A -> B) (p : B -> bool) (l1 l2 : list A) :
  List.filter p (List.map f (l1 ++ l2))
    = List.filter p (List.map f l1) ++ List.filter p (List.map f l2).
Proof. now rewrite List.map_app, List.filter_app. Qed.

Lemma or_falsy_absent a : truthy a = false -> or a None = None.
Proof. unfold or. now intros ->. Qed.


(** X24: a coordinate given as the number 0 is read as missing.  An
    item of a JSON array whose [Latitude] is the number 0 and that has no
    [lat] field yields no point, whatever its other fields and whatever
    stands around it; and so does an item whose [Longitude] is the number 0
    and that has neither [lng] nor [lon]. *)
Theorem parseGPSDataFromJSON_drops_zero
    (before after : list (gmap string Value)) (item : gmap string Value) (zero : Q) :
  zero == 0 ->
  (item !! "Latitude" = Some (Number zero) /\ item !! "lat" = None) \/
  (item !! "Longitude" = Some (Number zero) /\
   item !! "lng" = None /\ item !! "lon" = None) ->
  exists points1 points2,
    parseGPSDataFromJSON parseFloat (Items before) = inl points1 /\
    parseGPSDataFromJSON parseFloat (Items after) = inl points2 /\
    parseGPSDataFromJSON parseFloat (Items (before ++ item :: after))
      = inl (points1 ++ points2).
Proof.
  intros Hz Hitem. do 2 eexists. split; [reflexivity|]. split; [reflexivity|].
  simpl. f_equal. rewrite filter_map_app. f_equal.
  cbn [List.map List.filter].
  assert (Hfalsy : truthy (Some (Number zero)) = false).
  { simpl. apply Qeq_bool_iff in Hz. now rewrite Hz. }
  assert (Hdrop : keep (jsonPoint parseFloat item) = false).
  { unfold keep, jsonPoint. simpl.
    destruct Hitem as [[Hla Hl]|[Hlo [Hg Hn]]].
    - rewrite Hla, Hl, (or_falsy_absent _ Hfalsy). reflexivity.
    - rewrite Hlo, Hg, Hn, (or_falsy_absent _ Hfalsy). simpl.
      rewrite andb_false_r. reflexivity. }
  now rewrite Hdrop.
Qed.

End IngestionFacts.

(** ** Where the requests are sent *)

Section RequestBounds.
Context `{Host}.
Import DataProcessor.
Local Open Scope Q_scope.



End RequestBounds.

(** ** The further properties on the demonstration host *)

Section ExamplesMore.
Import DataProcessor ClimateCalculations.
Local Open Scope Q_scope.

Ltac by_compute :=
  first [reflexivity | discriminate | vm_compute; first [reflexivity | discriminate]].


Lemma calculateSurfaceTemperature_heats_witness :
  exists t1 t2,
    calculateSurfaceTemperature 25 100 Demo.wood = Some t1 /\
    calculateSurfaceTemperature 25 300 Demo.wood = Some t2 /\
    25 <= t1 /\ t1 <= t2.
Proof.
  apply (calculateSurfaceTemperature_heats 25 100 300 Demo.wood); by_compute.
Defined.

Lemma analyse_cracking_saturates_witness :
  exists result,
    analyse Demo.wood Sample.sunny = Some result /\
    ClimateData.temperature Sample.sunny + 88100
      <= AnalysisResult.surfaceTemperature result /\
    RiskAssessment.crackingRisk (AnalysisResult.riskAssessment result) = High.
Proof.
  apply (analyse_cracking_saturates Demo.wood Sample.sunny);
    [split; by_compute|by_compute|by_compute].
Defined.

Lemma moistureStress_low_in_range_witness :
  exists emc,
    calculateEMC 25 60 = Some emc /\
    RiskAssessment.moistureStress
      (assessRisks 30 (EMC.average emc) (EMC.peak emc) 2) = Low.
Proof.
  destruct (moistureStress_low_in_range 25 60) as (emc & He & Hlow); [by_compute|].
  exists emc. split; [exact He|].
  apply (proj1 (Hlow 30 2)). split; by_compute.
Defined.

Lemma agingRate_monotone_witness :
  RiskAssessment.agingRate (assessRisks 20 0 0 1)
    <= RiskAssessment.agingRate (assessRisks 30 0 0 2) /\
  RiskAssessment.agingRate (assessRisks 20 0 0 1) == 1 + 1 / 100 + (20 - 20) * 0.05.
Proof.
  destruct (agingRate_monotone 20 30 1 2 0 0 0 0) as [Hle Heq]; [by_compute..|].
  split; [exact Hle|]. apply Heq. by_compute.
Defined.

Lemma crackingRisk_monotone_witness :
  (rank (RiskAssessment.crackingRisk (assessRisks 30 0 0 0))
   <= rank (RiskAssessment.crackingRisk (assessRisks 50 0 0 0)))%nat.
Proof. apply (crackingRisk_monotone 30 50 0 0 0 0 0 0). by_compute. Defined.


Lemma groupPointsByProximity_separated_witness :
  groupIndexed (H := Demo.host Demo.down) [Demo.origin0; Demo.near; Demo.edge] 0.1 !! 1%nat
    = Some [(2%nat, Demo.edge)] /\
  (0 < 2)%nat /\
  ~ distance (H := Demo.host Demo.down) Demo.origin0 Demo.edge < 0.1.
Proof.
  assert (Ha : groupIndexed (H := Demo.host Demo.down)
                 [Demo.origin0; Demo.near; Demo.edge] 0.1 !! 0%nat
               = Some [(0%nat, Demo.origin0); (1%nat, Demo.near)]) by by_compute.
  assert (Hb : groupIndexed (H := Demo.host Demo.down)
                 [Demo.origin0; Demo.near; Demo.edge] 0.1 !! 1%nat
               = Some [(2%nat, Demo.edge)]) by by_compute.
  split; [exact Hb|].
  apply (groupPointsByProximity_separated (H := Demo.host Demo.down)
           [Demo.origin0; Demo.near; Demo.edge] 0.1 0 1 _ _ ltac:(lia) Ha Hb
           0%nat Demo.origin0 [(1%nat, Demo.near)] 2%nat Demo.edge eq_refl).
  apply elem_of_cons. left. reflexivity.
Defined.

Lemma aggregateByDay_within_bounds_witness :
  exists daily,
    aggregateByDay (H := Demo.host Demo.down) [Demo.noon; Demo.origin0] = Some daily /\
    Forall (fun point => -90 <= GPSPoint.latitude point <= 90 /\
                         -180 <= GPSPoint.longitude point <= 180) daily.
Proof.
  apply (aggregateByDay_within_bounds (H := Demo.host Demo.down)
           [Demo.noon; Demo.origin0] (-90) 90 (-180) 180).
  repeat constructor; by_compute.
Defined.

Lemma fetchClimateData_provider_down_witness :
  exists results w' qs,
    fetchClimateData (H := Demo.host Demo.down) [Demo.noon; Demo.edge] App.start
      = Some (results, w') /\
    origin <$> results
      = footprint (H := Demo.host Demo.down)
          <$> concat (groupPointsByProximity (H := Demo.host Demo.down)
                        [Demo.noon; Demo.edge] 0.1) /\
    length results = 2%nat /\
    World.trace w' = World.trace App.start ++ (Request <$> qs) /\
    World.draws w' = (World.draws App.start + 5 * 2)%nat.
Proof.
  apply (fetchClimateData_provider_down (H := Demo.host Demo.down)
           [Demo.noon; Demo.edge] App.start).
  intros n q. reflexivity.
Defined.

Lemma fetchClimateData_synthetic_witness :
  exists results w',
    fetchClimateData (H := Demo.host Demo.down) [Demo.noon; Demo.edge] App.start
      = Some (results, w') /\
    Forall synthetic results.
Proof.
  apply (fetchClimateData_synthetic (H := Demo.host Demo.down)
           [Demo.noon; Demo.edge] App.start).
  - intros n. split; by_compute.
  - intros n q. reflexivity.
Defined.

Lemma fetchClimateData_uvIndex_witness :
  exists results w',
    fetchClimateData (H := Demo.host (Demo.answers Demo.mild)) [Demo.noon] App.start
      = Some (results, w') /\
    Forall (fun r => 0 <= ClimateData.uvIndex r <= 11) results.
Proof.
  apply (fetchClimateData_uvIndex (H := Demo.host (Demo.answers Demo.mild))
           [Demo.noon] App.start).
  intros n. split; by_compute.
Defined.






Lemma parseGPSDataFromJSON_drops_zero_witness :
  exists points1 points2,
    Ingestion.parseGPSDataFromJSON (fun _ => None) (Ingestion.Items []) = inl points1 /\
    Ingestion.parseGPSDataFromJSON (fun _ => None) (Ingestion.Items []) = inl points2 /\
    Ingestion.parseGPSDataFromJSON (fun _ => None)
      (Ingestion.Items ([] ++ Sample.equator :: [])) = inl (points1 ++ points2).
Proof.
  apply (parseGPSDataFromJSON_drops_zero (fun _ => None) [] [] Sample.equator 0);
    [reflexivity|].
  left. split; by_compute.
Defined.


End ExamplesMore.
